(** * Laplace coefficients and their derivatives

    A shallow embedding of [src/laplace/coefficients.py] and
    [src/laplace/laplace.py]: the validated evaluator [lc], the recursive
    derivative [dnlc], and the pieces of NumPy they are built from.

    Conventions of the embedding.
    - A Python [float] (and a NumPy [float64]) is a binary64 number: Rocq's
      primitive [float], with the IEEE operations of [PrimFloat].
    - A Python [int] is a [Z]; a NumPy [int64] is a [Z] kept in range by
      [wrap64], written where NumPy wraps around.
    - [raise] is the [Raise] outcome of the [result] monad.
    - SciPy's [hyp2f1] and [quad] and NumPy's [cos] and [power] are not code
      of this repository: they are the fields of a [NumLib] record that every
      definition takes as a parameter.
    - Machine resources are not modelled: an array that NumPy agrees to
      build is always allocated (no [MemoryError]), and the interpreter's
      stack is as deep as the fuel given. *)

From Stdlib Require Import ZArith List String Bool Lia Floats.
From Stdlib Require Import FunctionalExtensionality.
Import ListNotations.

Open Scope Z_scope.

(* ================================================================= *)
(** ** Exceptions and the error monad *)

(** The exceptions the program can end with. [ValueError] is what the
    source raises itself, and what [np.arange] raises on a length it
    refuses; [TypeError] is the interpreter's on arithmetic with [None];
    [ComputationError] stands for whatever a SciPy routine raises;
    [RecursionError] is the interpreter's when the stack is exhausted. *)
Inductive exn : Type :=
| ValueError (msg : string)
| TypeError (msg : string)
| ComputationError
| RecursionError.

Inductive result (A : Type) : Type :=
| Ok (a : A)
| Raise (e : exn).

Arguments Ok {A} a.
Arguments Raise {A} e.

Definition bind {A B : Type} (c : result A) (k : A -> result B) : result B :=
  match c with
  | Ok a => k a
  | Raise e => Raise e
  end.

Notation "x <- c ;; k" := (bind c (fun x => k))
  (at level 61, c at next level, right associativity).
Notation "' pat <- c ;; k" := (bind c (fun x => match x with pat => k end))
  (at level 61, pat pattern, c at next level, right associativity).

(** A call that may also run out of stack: [None] is "deeper than the fuel". *)
Definition fbind {A B : Type} (c : option (result A))
  (k : A -> option (result B)) : option (result B) :=
  match c with
  | None => None
  | Some (Raise e) => Some (Raise e)
  | Some (Ok a) => k a
  end.

Notation "x <-- c ;; k" := (fbind c (fun x => k))
  (at level 61, c at next level, right associativity).

(** [o'] is at least as defined as [o]: what [o] returns, [o'] returns. *)
Definition refines {C : Type} (o o' : option (result C)) : Prop :=
  forall r, o = Some r -> o' = Some r.

(** The outcome of a call given enough stack. *)
Definition run {A : Type} (o : option (result A)) : result A :=
  match o with
  | Some r => r
  | None => Raise RecursionError
  end.

(** The result of a library routine: [None] when it raised. *)
Definition lift_lib {A : Type} (o : option A) : result A :=
  match o with
  | Some a => Ok a
  | None => Raise ComputationError
  end.

(* ================================================================= *)
(** ** Numbers *)

(** [float(z)] for a Python int, and the conversion of an [int64] in mixed
    arithmetic: the nearest binary64, ties to even. Python refuses an int
    beyond the binary64 range with an [OverflowError], where the model
    rounds it to an infinity: inside [np.arange], which reports that error
    and an infinite length alike, the two cannot be told apart. *)
Definition float_of_pos (p : positive) : float :=
  SF2Prim (binary_round prec emax false p 0).

Definition float_of_Z (z : Z) : float :=
  match z with
  | Z0 => 0%float
  | Zpos p => float_of_pos p
  | Zneg p => (- float_of_pos p)%float
  end.

(** Two's-complement wrap-around of a NumPy [int64]. *)
Definition wrap64 (z : Z) : Z := (z + 2 ^ 63) mod 2 ^ 64 - 2 ^ 63.

(** The ceiling of a finite float; [None] on NaN and the infinities. *)
Definition float_ceil (x : float) : option Z :=
  match Prim2SF x with
  | S754_zero _ => Some 0
  | S754_finite sg m e =>
      let v := if sg then Zneg m else Zpos m in
      Some (if 0 <=? e then v * 2 ^ e else - ((- v) / 2 ^ (- e)))
  | S754_infinity _ | S754_nan => None
  end.

(** A float that is neither NaN nor infinite. *)
Definition is_finite (x : float) : bool :=
  match Prim2SF x with
  | S754_zero _ | S754_finite _ _ _ => true
  | S754_infinity _ | S754_nan => false
  end.

(** [abs(x - y) < 1e-5], the tolerance of the tests. *)
Definition within_tolerance (x y : float) : bool :=
  (abs (x - y) <? 0x1.4f8b588e368f1p-17)%float.

(** The factorial, in unbounded integers. *)
Fixpoint factorial (k : nat) : Z :=
  match k with
  | O => 1
  | S k' => Z.of_nat k * factorial k'
  end.

(** [np.pi]. *)
Definition np_pi : float := 0x1.921fb54442d18p+1%float.

(* ================================================================= *)
(** ** NumPy arrays: [np.arange] and [np.prod] *)

(** The three refusals of [np.arange]. *)
Definition msg_length : string := "arange: cannot compute length".
Definition msg_size : string := "Maximum allowed size exceeded".
Definition msg_too_big : string :=
  "array is too big; `arr.size * arr.dtype.itemsize` is larger than the maximum possible size.".

(** The length of [np.arange(start, stop)], from [value], the float
    [(stop - start) / step]: its ceiling, refused when NaN and when outside
    the index range. NumPy raises an [OverflowError] there and turns it at
    once into the [ValueError] of [msg_size]. The upper end of the range,
    2^63 - 1, is compared as a float, that is as 2^63: a ceiling of 2^63
    passes, and its conversion to a 64-bit index gives -2^63 (as the
    conversion instruction of x86-64 does), the length of an empty array. *)
Definition arange_length (value : float) : result Z :=
  match float_ceil value with
  | None =>
      if is_nan value then Raise (ValueError msg_length)
      else Raise (ValueError msg_size)
  | Some len =>
      if (len <? - 2 ^ 63) || (2 ^ 63 <? len) then Raise (ValueError msg_size)
      else Ok (wrap64 len)
  end.

(** The number of entries NumPy allocates for a length: none for a length
    that is not positive; an array of 8-byte entries whose size in bytes is
    beyond the index range (2^60 entries or more) is refused. *)
Definition np_empty (len : Z) : result nat :=
  if len <=? 0 then Ok O
  else if 2 ^ 60 <=? len then Raise (ValueError msg_too_big)
  else Ok (Z.to_nat len).

(** The entries of an [int64] array that counts from a up to b - 1
    (none when b <= a). *)
Definition np_arange_int (a b : Z) : list Z :=
  map (fun i => a + Z.of_nat i) (seq 0 (Z.to_nat (b - a))).

(** [np.arange(a, b)] on ints (step 1): the length comes from the float
    [(b - a) / 1], the nearest to the exact quotient, and the array counts
    from a. *)
Definition np_arange (a b : Z) : result (list Z) :=
  len <- arange_length (float_of_Z (b - a)) ;;
  n <- np_empty len ;;
  Ok (np_arange_int a (a + Z.of_nat n)).

(** [np.prod] of an [int64] array: [multiply.reduce], every product wrapped
    to 64 bits; 1 on the empty array. *)
Definition np_prod_int (l : list Z) : Z :=
  fold_left (fun acc x => wrap64 (acc * x)) l 1.

(** [np.arange(start, stop)] on floats (step 1). The length comes from
    [(stop - start) / 1]; the first two entries are [start] and
    [start + 1], and entry [i] from the third on is [start + i * delta] with
    [delta] the difference of the first two. *)
Definition np_arange_float (start stop : float) : result (list float) :=
  len <- arange_length ((stop - start) / 1)%float ;;
  n <- np_empty len ;;
  let next := (start + 1)%float in
  let delta := (next - start)%float in
  Ok (map (fun i => match i with
                    | O => start
                    | S O => next
                    | _ => (start + float_of_Z (Z.of_nat i) * delta)%float
                    end)
          (seq 0 n)).

(** An exception of [np.arange]: one of its three refusals. *)
Definition arange_error (e : exn) : Prop :=
  e = ValueError msg_length \/ e = ValueError msg_size
  \/ e = ValueError msg_too_big.

(** [np.prod] of a [float64] array: the entries multiplied left to right;
    1.0 on the empty array. *)
Definition np_prod_float (l : list float) : float :=
  match l with
  | [] => 1%float
  | x :: xs => fold_left PrimFloat.mul xs x
  end.

(* ================================================================= *)
(** ** The numeric library *)

(** What the program imports from SciPy and NumPy and only calls.
    [hyp2f1 a b c z] is [scipy.special.hyp2f1]; [quad f a b] is
    [scipy.integrate.quad], returning the estimate and its error bound;
    both may raise. [np_cos] and [np_power] are the NumPy ufuncs on
    [float64], which never raise. *)
Record NumLib : Type := {
  hyp2f1 : float -> float -> float -> float -> option float;
  quad : (float -> float) -> float -> float -> option (float * float);
  np_cos : float -> float;
  np_power : float -> float -> float
}.

(* ================================================================= *)
(** ** [src/laplace/coefficients.py] *)

Module Coefficients.

(** The two messages of a domain failure and the one of a method failure. *)
Definition msg_method : string := "method must be 'hyper' or 'brute'".
Definition msg_alpha : string :=
  "semi-major axis ratio alpha must be between 0 and 1".
Definition msg_s : string := "s must be a positive half-integer".

(** [_validate_inputs(alpha, s, method)]: three tests, in this order. *)
Definition _validate_inputs (alpha s : float) (method : string) : result unit :=
  if negb (existsb (String.eqb method) ["hyper"; "brute"]%string) then
    Raise (ValueError msg_method)
  else if (1 <? alpha)%float then
    Raise (ValueError msg_alpha)
  else if (s <? 0)%float then
    Raise (ValueError msg_s)
  else Ok tt.

Section WithLibrary.

Variable L : NumLib.

(** [lc(alpha, s, j, method)]. *)
Definition lc (alpha s : float) (j : Z) (method : string) : result float :=
  _ <- _validate_inputs alpha s method ;;
  if (method =? "hyper")%string then
    let j := Z.abs j in
    ints <- np_arange 1 (j + 1) ;;
    let p := np_prod_int ints in
    arr <- np_arange_float s (s + float_of_Z j)%float ;;
    let q := np_prod_float arr in
    h <- lift_lib (hyp2f1 L s (s + float_of_Z j)%float (float_of_Z (j + 1))
                     (alpha * alpha)%float) ;;
    Ok (2 * (q / float_of_Z p) * np_power L alpha (float_of_Z j) * h)%float
  else
    let integrand := fun t : float =>
      (np_cos L (float_of_Z j * t)
       * np_power L (1 - 2 * alpha * np_cos L t + alpha * alpha) (- s))%float in
    '(res, _) <- lift_lib (quad L integrand 0%float (2 * np_pi)%float) ;;
    Ok (res / np_pi)%float.

(** [dnlc(alpha, s, j, n, method)] on a stack of [fuel] further frames:
    [None] when a recursive call is needed and no frame is left. *)
Fixpoint dnlc_fuel (fuel : nat) (alpha s : float) (j n : Z) (method : string)
  : option (result float) :=
  match _validate_inputs alpha s method with
  | Raise e => Some (Raise e)
  | Ok _ =>
      if n <=? 0 then
        Some (x <- lc alpha s j method ;;
              Ok (float_of_Z (Z.max 0 (n + 1)) * x)%float)
      else
        match fuel with
        | O => None
        | S fuel' =>
            d1 <-- dnlc_fuel fuel' alpha (s + 1)%float (j - 1) (n - 1) method ;;
            d2 <-- dnlc_fuel fuel' alpha (s + 1)%float j (n - 1) method ;;
            d3 <-- dnlc_fuel fuel' alpha (s + 1)%float (j + 1) (n - 1) method ;;
            d4 <-- dnlc_fuel fuel' alpha (s + 1)%float j (n - 2) method ;;
            Some (Ok (s * (d1 - 2 * alpha * d2 + d3
                           - float_of_Z (2 * (n - 1)) * d4))%float)
        end
  end.

(** [dnlc] itself: the stack is as deep as the call needs ([n] frames are
    enough, see [dnlc_fuel_enough]). *)
Definition dnlc (alpha s : float) (j n : Z) (method : string) : result float :=
  run (dnlc_fuel (Z.to_nat n) alpha s j n method).

(** The recursion depth of a call: the least number of further frames with
    which it completes, searched from [k] upwards in [tries] steps. *)
Fixpoint least_fuel (tries k : nat) (alpha s : float) (j n : Z)
  (method : string) : nat :=
  match tries with
  | O => k
  | S tries' =>
      match dnlc_fuel k alpha s j n method with
      | Some _ => k
      | None => least_fuel tries' (S k) alpha s j n method
      end
  end.

Definition recursion_depth (alpha s : float) (j n : Z) (method : string) : nat :=
  least_fuel (Z.to_nat n) 0 alpha s j n method.

End WithLibrary.

End Coefficients.

(** The errors of [_validate_inputs], as the specification names them. *)
Definition is_invalid_method (e : exn) : bool :=
  match e with
  | ValueError msg => (msg =? Coefficients.msg_method)%string
  | _ => false
  end.

Definition is_invalid_domain (e : exn) : bool :=
  match e with
  | ValueError msg =>
      (msg =? Coefficients.msg_alpha)%string || (msg =? Coefficients.msg_s)%string
  | _ => false
  end.

Definition is_validation_error (e : exn) : bool :=
  is_invalid_method e || is_invalid_domain e.

(** [method in ["hyper", "brute"]]. *)
Definition recognized (method : string) : bool :=
  existsb (String.eqb method) ["hyper"; "brute"]%string.

(** A valid input: the method is recognized, and neither [alpha > 1] nor
    [s < 0] holds, as the source tests them. *)
Definition valid_input (alpha s : float) (method : string) : Prop :=
  recognized method = true /\ (1 <? alpha)%float = false
  /\ (s <? 0)%float = false.

(** The arguments of one call of [dnlc], and the calls its body makes: none
    unless validation passed and [n > 0], then the four of the recurrence. *)
Record call : Type := Call {
  c_alpha : float;
  c_s : float;
  c_j : Z;
  c_n : Z;
  c_method : string
}.

Definition validates (c : call) : Prop :=
  Coefficients._validate_inputs (c_alpha c) (c_s c) (c_method c) = Ok tt.

Inductive subcall : call -> call -> Prop :=
| sub_lower a s j n m :
    validates (Call a s j n m) -> 0 < n ->
    subcall (Call a s j n m) (Call a (s + 1)%float (j - 1) (n - 1) m)
| sub_same a s j n m :
    validates (Call a s j n m) -> 0 < n ->
    subcall (Call a s j n m) (Call a (s + 1)%float j (n - 1) m)
| sub_upper a s j n m :
    validates (Call a s j n m) -> 0 < n ->
    subcall (Call a s j n m) (Call a (s + 1)%float (j + 1) (n - 1) m)
| sub_second a s j n m :
    validates (Call a s j n m) -> 0 < n ->
    subcall (Call a s j n m) (Call a (s + 1)%float j (n - 2) m).

(** The calls reachable from a call, itself included. *)
Inductive reaches : call -> call -> Prop :=
| reaches_refl c : reaches c c
| reaches_step c c' c'' : subcall c c' -> reaches c' c'' -> reaches c c''.

(* ================================================================= *)
(** ** [src/laplace/laplace.py] *)

(** What a Python function without a [return] on some path gives back. *)
Inductive pyvalue : Type :=
| PyFloat (x : float)
| PyNone.

Module Laplace.

(** [np.abs(j)] of a Python int within the 64-bit range: a NumPy [int64]
    (of -2^63 it is -2^63 again). A Python int outside that range NumPy
    takes for another type ([uint64], or a Python object), which is not
    modelled. *)
Definition np_abs (j : Z) : Z := wrap64 (Z.abs j).

Section WithLibrary.

Variable L : NumLib.

(** [lc(a, s, j, method)]: the tests are inline, and a method that is
    neither of the two falls off the end of the function. *)
Definition lc (a s : float) (j : Z) (method : string) : result pyvalue :=
  if negb (existsb (String.eqb method) ["hyper"; "brute"]%string) then
    Raise (ValueError "method must be 'hyper' or 'brute'.")
  else if (1 <? a)%float then
    Raise (ValueError "semi-major axis ratio a must be between 0 and 1.")
  else if (s <? 0)%float then
    Raise (ValueError "s must be a positive half-integer.")
  else if (method =? "hyper")%string then
    let j := np_abs j in
    ints <- np_arange 1 (wrap64 (j + 1)) ;;
    let p := np_prod_int ints in
    arr <- np_arange_float s (s + float_of_Z j)%float ;;
    let q := np_prod_float arr in
    h <- lift_lib (hyp2f1 L s (s + float_of_Z j)%float
                     (float_of_Z (wrap64 (j + 1))) (a * a)%float) ;;
    Ok (PyFloat (2 * (q / float_of_Z p) * np_power L a (float_of_Z j) * h)%float)
  else if (method =? "brute")%string then
    let db := fun t : float =>
      (np_cos L (float_of_Z j * t)
       * np_power L (1 - 2 * a * np_cos L t + a * a) (- s))%float in
    '(l, err) <- lift_lib (quad L db 0%float (2 * np_pi)%float) ;;
    Ok (PyFloat (l / np_pi)%float)
  else Ok PyNone.

(** [int * value]: defined on a float only. *)
Definition int_times (z : Z) (v : pyvalue) : result float :=
  match v with
  | PyFloat x => Ok (float_of_Z z * x)%float
  | PyNone =>
      Raise (TypeError "unsupported operand type(s) for *: 'int' and 'NoneType'")
  end.

(** [dnlc(a, s, j, n, method)], with no test of its own. *)
Fixpoint dnlc_fuel (fuel : nat) (a s : float) (j n : Z) (method : string)
  : option (result float) :=
  if n <=? 0 then
    Some (x <- lc a s j method ;; int_times (Z.max 0 (n + 1)) x)
  else
    match fuel with
    | O => None
    | S fuel' =>
        d1 <-- dnlc_fuel fuel' a (s + 1)%float (j - 1) (n - 1) method ;;
        d2 <-- dnlc_fuel fuel' a (s + 1)%float j (n - 1) method ;;
        d3 <-- dnlc_fuel fuel' a (s + 1)%float (j + 1) (n - 1) method ;;
        d4 <-- dnlc_fuel fuel' a (s + 1)%float j (n - 2) method ;;
        Some (Ok (s * (d1 - 2 * a * d2 + d3
                       - float_of_Z (2 * (n - 1)) * d4))%float)
    end.

Definition dnlc (a s : float) (j n : Z) (method : string) : result float :=
  run (dnlc_fuel (Z.to_nat n) a s j n method).

End WithLibrary.

End Laplace.

(* ================================================================= *)
(** ** [src/laplace.py] *)

Module Legacy.

Section WithLibrary.

Variable L : NumLib.

(** [lc(a, s, j, method)]: no test at all; a method that is neither of the
    two falls off the end of the function. *)
Definition lc (a s : float) (j : Z) (method : string) : result pyvalue :=
  if (method =? "hyper")%string then
    let j := Laplace.np_abs j in
    ints <- np_arange 1 (wrap64 (j + 1)) ;;
    let p := np_prod_int ints in
    arr <- np_arange_float s (s + float_of_Z j)%float ;;
    let q := np_prod_float arr in
    h <- lift_lib (hyp2f1 L s (s + float_of_Z j)%float
                     (float_of_Z (wrap64 (j + 1))) (a * a)%float) ;;
    Ok (PyFloat (2 * (q / float_of_Z p) * np_power L a (float_of_Z j) * h)%float)
  else if (method =? "brute")%string then
    let db := fun t : float =>
      (np_cos L (float_of_Z j * t)
       * np_power L (1 - 2 * a * np_cos L t + a * a) (- s))%float in
    '(l, err) <- lift_lib (quad L db 0%float (2 * np_pi)%float) ;;
    Ok (PyFloat (l / np_pi)%float)
  else Ok PyNone.

(** [dnlc(a, s, j, n, method)]. *)
Fixpoint dnlc_fuel (fuel : nat) (a s : float) (j n : Z) (method : string)
  : option (result float) :=
  if n <=? 0 then
    Some (x <- lc a s j method ;; Laplace.int_times (Z.max 0 (n + 1)) x)
  else
    match fuel with
    | O => None
    | S fuel' =>
        d1 <-- dnlc_fuel fuel' a (s + 1)%float (j - 1) (n - 1) method ;;
        d2 <-- dnlc_fuel fuel' a (s + 1)%float j (n - 1) method ;;
        d3 <-- dnlc_fuel fuel' a (s + 1)%float (j + 1) (n - 1) method ;;
        d4 <-- dnlc_fuel fuel' a (s + 1)%float j (n - 2) method ;;
        Some (Ok (s * (d1 - 2 * a * d2 + d3
                       - float_of_Z (2 * (n - 1)) * d4))%float)
    end.

Definition dnlc (a s : float) (j n : Z) (method : string) : result float :=
  run (dnlc_fuel (Z.to_nat n) a s j n method).

End WithLibrary.

End Legacy.

(** The recursion that the two [dnlc] without a test of their own share,
    over the value [leaf s j n] of their base case. *)
Fixpoint leaf_rec_fuel (leaf : float -> Z -> Z -> result float) (fuel : nat)
  (a s : float) (j n : Z) : option (result float) :=
  if n <=? 0 then Some (leaf s j n)
  else
    match fuel with
    | O => None
    | S fuel' =>
        d1 <-- leaf_rec_fuel leaf fuel' a (s + 1)%float (j - 1) (n - 1) ;;
        d2 <-- leaf_rec_fuel leaf fuel' a (s + 1)%float j (n - 1) ;;
        d3 <-- leaf_rec_fuel leaf fuel' a (s + 1)%float (j + 1) (n - 1) ;;
        d4 <-- leaf_rec_fuel leaf fuel' a (s + 1)%float j (n - 2) ;;
        Some (Ok (s * (d1 - 2 * a * d2 + d3
                       - float_of_Z (2 * (n - 1)) * d4))%float)
    end.

(** The base cases of the [dnlc] of [laplace/laplace.py] and of
    [src/laplace.py], as leaves of that recursion. *)
Definition laplace_leaf (L : NumLib) (a : float) (method : string)
  (s : float) (j n : Z) : result float :=
  x <- Laplace.lc L a s j method ;; Laplace.int_times (Z.max 0 (n + 1)) x.

Definition legacy_leaf (L : NumLib) (a : float) (method : string)
  (s : float) (j n : Z) : result float :=
  x <- Legacy.lc L a s j method ;; Laplace.int_times (Z.max 0 (n + 1)) x.

(* ================================================================= *)
(** ** Counting the evaluations of [lc] *)

(** [Coefficients.dnlc_fuel] with a counter: beside the value, the number
    of calls of [lc] made on the way. *)
Fixpoint dnlc_count (L : NumLib) (fuel : nat) (alpha s : float) (j n : Z)
  (method : string) : option (result (float * Z)) :=
  match Coefficients._validate_inputs alpha s method with
  | Raise e => Some (Raise e)
  | Ok _ =>
      if n <=? 0 then
        Some (x <- Coefficients.lc L alpha s j method ;;
              Ok ((float_of_Z (Z.max 0 (n + 1)) * x)%float, 1))
      else
        match fuel with
        | O => None
        | S fuel' =>
            d1 <-- dnlc_count L fuel' alpha (s + 1)%float (j - 1) (n - 1)
                     method ;;
            d2 <-- dnlc_count L fuel' alpha (s + 1)%float j (n - 1) method ;;
            d3 <-- dnlc_count L fuel' alpha (s + 1)%float (j + 1) (n - 1)
                     method ;;
            d4 <-- dnlc_count L fuel' alpha (s + 1)%float j (n - 2) method ;;
            Some (Ok ((s * (fst d1 - 2 * alpha * fst d2 + fst d3
                            - float_of_Z (2 * (n - 1)) * fst d4))%float,
                      snd d1 + snd d2 + snd d3 + snd d4))
        end
  end.

(** The calls of [lc] behind a derivative of order [k]: one at order 0,
    and at order k + 1 three times those of order k plus those of order
    k - 1 (one when k - 1 is negative). *)
Fixpoint lc_calls_nat (k : nat) : Z :=
  match k with
  | O => 1
  | S k' =>
      3 * lc_calls_nat k'
      + match k' with
        | O => 1
        | S k'' => lc_calls_nat k''
        end
  end.

Definition lc_calls (n : Z) : Z := lc_calls_nat (Z.to_nat n).

(* ================================================================= *)
(** ** A reference numeric library

    A small executable stand-in for SciPy and NumPy, precise enough to run
    the repository's test table: the Gauss series for [hyp2f1], the Taylor
    series for the cosine (after range reduction), powers with a
    half-integer exponent, and the trapezoid rule for [quad]. *)

Module Reference.

(** [k] more terms of the Gauss series after term number [i]. *)
Fixpoint gauss_series (k : nat) (i a b c z term acc : float) : float :=
  match k with
  | O => acc
  | S k' =>
      let term' :=
        (term * ((a + i) * (b + i) / ((c + i) * (i + 1))) * z)%float in
      gauss_series k' (i + 1)%float a b c z term' (acc + term')%float
  end.

(** At [z = 1] the series diverges when [c <= a + b]: infinity, as SciPy
    returns there. *)
Definition ref_hyp2f1 (a b c z : float) : option float :=
  if (z =? 1)%float && (c <=? a + b)%float then Some infinity
  else Some (gauss_series 400 0%float a b c z 1%float 1%float).

(** [k] more terms of the cosine series in [x2 = x * x]. *)
Fixpoint cos_series (k : nat) (i x2 term acc : float) : float :=
  match k with
  | O => acc
  | S k' =>
      let term' := (- term * x2 / ((i + 1) * (i + 2)))%float in
      cos_series k' (i + 2)%float x2 term' (acc + term')%float
  end.

(** The cosine: [|x|] reduced to within pi of zero, then the series. *)
Definition ref_cos (x : float) : float :=
  let a := abs x in
  match float_ceil (a / (2 * np_pi) - 0.5)%float with
  | Some k =>
      let r := (a - float_of_Z k * (2 * np_pi))%float in
      cos_series 30 0%float (r * r)%float 1%float 1%float
  | None => nan
  end.

Fixpoint pow_nat (x : float) (k : nat) : float :=
  match k with
  | O => 1%float
  | S k' => (x * pow_nat x k')%float
  end.

Definition pow_int (x : float) (k : Z) : float :=
  if 0 <=? k then pow_nat x (Z.to_nat k)
  else (1 / pow_nat x (Z.to_nat (- k)))%float.

(** [x ** y] for [y] a multiple of one half; NaN for any other exponent. *)
Definition ref_power (x y : float) : float :=
  match float_ceil (2 * y)%float with
  | Some k =>
      if (float_of_Z k =? 2 * y)%float then
        if Z.even k then pow_int x (k / 2)
        else (pow_int x (k / 2) * sqrt x)%float
      else nan
  | None => nan
  end.

(** The sum of [f] at the [k] inner points [a + h], ..., [a + k * h]. *)
Fixpoint inner_sum (f : float -> float) (a h : float) (k : nat) (acc : float)
  : float :=
  match k with
  | O => acc
  | S k' =>
      inner_sum f a h k' (acc + f (a + float_of_Z (Z.of_nat k) * h))%float
  end.

(** The trapezoid rule on 512 panels, reported with error bound 0. *)
Definition ref_quad (f : float -> float) (a b : float) : option (float * float) :=
  let h := ((b - a) / 512)%float in
  Some ((h * inner_sum f a h 511 ((f a + f b) / 2))%float, 0%float).

Definition lib : NumLib :=
  {| hyp2f1 := ref_hyp2f1; quad := ref_quad;
     np_cos := ref_cos; np_power := ref_power |}.

(** Powers by repeated squaring, for an integer exponent out of the reach
    of [pow_nat]. *)
Fixpoint pow_pos (x : float) (p : positive) : float :=
  match p with
  | xH => x
  | xO p' => let y := pow_pos x p' in (y * y)%float
  | xI p' => let y := pow_pos x p' in (x * (y * y))%float
  end.

(** [x ** y] for [y] a positive integer; NaN for any other exponent. *)
Definition far_power (x y : float) : float :=
  match float_ceil y with
  | Some (Zpos p) =>
      if (float_of_Z (Zpos p) =? y)%float then pow_pos x p else nan
  | _ => nan
  end.

(** The library for the far end of the 64-bit range: [hyp2f1] is infinite
    at a negative [c] (an integer there, a pole of the series), and the
    powers are taken by squaring. *)
Definition far_lib : NumLib :=
  {| hyp2f1 := fun a b c z =>
       if (c <? 0)%float then Some infinity else ref_hyp2f1 a b c z;
     quad := ref_quad; np_cos := ref_cos; np_power := far_power |}.

(** [abs(x - expected) < 1e-5], as the tests assert; false on an exception. *)
Definition close_to (r : result float) (expected : float) : bool :=
  match r with
  | Ok x => within_tolerance x expected
  | Raise _ => false
  end.

(** The test fixture: alpha near the 3:1 mean-motion resonance, 0.480597. *)
Definition alpha_3_1 : float := 0x1.ec219eb6390c9p-2%float.

End Reference.

(* ================================================================= *)
(** * Facts about binary64 arithmetic

    Each is read off the specification of the primitive operations on
    [spec_float]. *)

Section FloatFacts.

Lemma Prim2SF_one : Prim2SF 1%float = S754_finite false 4503599627370496 (-52).
Proof. reflexivity. Qed.

Lemma Prim2SF_zero : Prim2SF 0%float = S754_zero false.
Proof. reflexivity. Qed.

(** Rounding a positive number never gives a negative one. *)
Lemma round_aux_pos_not_neg m e l b :
  SFltb (binary_round_aux prec emax false m e l) (S754_zero b) = false.
Proof.
  unfold binary_round_aux.
  destruct (shr_fexp prec emax m e l) as [mrs e'].
  destruct (shr_fexp prec emax _ e' loc_Exact) as [mrs' e''].
  destruct (shr_m mrs'); try reflexivity.
  destruct (e'' <=? emax - prec); reflexivity.
Qed.

(** [not (s < 0)] gives [not (s + 1 < 0)]: on NaN, on both zeros, on the
    positive numbers and on plus infinity. *)
Lemma add_one_not_neg (s : float) :
  (s <? 0)%float = false -> (s + 1 <? 0)%float = false.
Proof.
  rewrite !ltb_spec, add_spec, Prim2SF_one, Prim2SF_zero.
  destruct (Prim2SF s) as [sg | sg | | sg m e]; try destruct sg;
    try reflexivity; try discriminate.
  intros _. unfold SF64add, SFadd, binary_normalize.
  cbn [cond_Zopp].
  set (ez := Z.min e (-52)).
  destruct (shl_align m e ez) as [m1 e1].
  destruct (shl_align 4503599627370496 (-52) ez) as [m2 e2].
  cbn [fst Z.add]. unfold binary_round.
  destruct (shl_align _ _ _) as [mz ez'].
  apply round_aux_pos_not_neg.
Qed.

Lemma digits2_pos_shift52 m :
  Zpos (digits2_pos (4503599627370496 * m)) = Zpos (digits2_pos m) + 52.
Proof.
  cbn [Pos.mul digits2_pos]. rewrite !Pos2Z.inj_succ. lia.
Qed.

Lemma shr_52 m :
  iter_pos shr_1 52 (shr_record_of_loc (Zpos (4503599627370496 * m)) loc_Exact)
  = {| shr_m := Zpos m; shr_r := false; shr_s := false |}.
Proof. reflexivity. Qed.

(** The product of the mantissa of 1.0 with a canonical mantissa rounds
    back to that mantissa. *)
Lemma round_aux_one_l sg m e :
  bounded prec emax m e = true ->
  binary_round_aux prec emax sg (Zpos (4503599627370496 * m)) (-52 + e) loc_Exact
  = S754_finite sg m e.
Proof.
  unfold bounded, canonical_mantissa. intros Hb.
  apply andb_prop in Hb. destruct Hb as [Hc He].
  apply Z.eqb_eq in Hc.
  unfold binary_round_aux, shr_fexp.
  cbn [Zdigits2]. rewrite digits2_pos_shift52.
  replace (Zpos (digits2_pos m) + 52 + (-52 + e))
    with (Zpos (digits2_pos m) + e) by lia.
  rewrite Hc.
  replace (e - (-52 + e)) with 52 by lia.
  cbn [shr]. rewrite shr_52.
  cbn [shr_m loc_of_shr_record round_nearest_even Zdigits2 shr_record_of_loc].
  replace (-52 + e + 52) with e by lia.
  rewrite Hc, Z.sub_diag. cbn [shr shr_m]. rewrite He. reflexivity.
Qed.

(** [1.0 * x] is [x], bit for bit. *)
Lemma mul_one_l (x : float) : (1 * x)%float = x.
Proof.
  apply Prim2SF_inj. rewrite mul_spec, Prim2SF_one.
  pose proof (Prim2SF_valid x) as Hv.
  destruct (Prim2SF x) as [sg | sg | | sg m e]; try reflexivity.
  unfold SF64mul, SFmul. cbn [xorb]. apply round_aux_one_l. exact Hv.
Qed.

(** [0.0 * x] compares equal to zero when [x] is finite ... *)
Lemma mul_zero_finite (x : float) :
  is_finite x = true -> (0 * x =? 0)%float = true.
Proof.
  unfold is_finite. rewrite eqb_spec, mul_spec, Prim2SF_zero.
  destruct (Prim2SF x) as [sg | sg | | sg m e]; try discriminate;
    intros _; reflexivity.
Qed.

(** ... and is NaN when [x] is an infinity or NaN. *)
Lemma mul_zero_not_finite (x : float) :
  is_finite x = false -> (0 * x)%float = nan.
Proof.
  unfold is_finite. intros H. apply Prim2SF_inj.
  rewrite mul_spec, Prim2SF_zero.
  destruct (Prim2SF x) as [sg | sg | | sg m e]; try discriminate; reflexivity.
Qed.

Lemma round_aux_negb sg m e l :
  binary_round_aux prec emax (negb sg) m e l
  = SFopp (binary_round_aux prec emax sg m e l).
Proof.
  unfold binary_round_aux.
  destruct (shr_fexp prec emax m e l) as [mrs e'].
  destruct (shr_fexp prec emax _ e' loc_Exact) as [mrs' e''].
  destruct (shr_m mrs'); try reflexivity.
  destruct (e'' <=? emax - prec); reflexivity.
Qed.

Lemma SFmul_opp_l x y :
  SFmul prec emax (SFopp x) y = SFopp (SFmul prec emax x y).
Proof.
  destruct x as [sx | sx | | sx mx ex], y as [sy | sy | | sy my ey];
    cbn [SFopp SFmul]; rewrite <- ?negb_xorb_l; try reflexivity.
  apply round_aux_negb.
Qed.

(** [(-a) * t] is [-(a * t)]. *)
Lemma mul_opp_l (a t : float) : (- a * t)%float = (- (a * t))%float.
Proof.
  apply Prim2SF_inj.
  rewrite mul_spec, !opp_spec, mul_spec. apply SFmul_opp_l.
Qed.

Lemma opp_involutive (x : float) : (- - x)%float = x.
Proof.
  apply Prim2SF_inj. rewrite !opp_spec.
  destruct (Prim2SF x) as [sg | sg | | sg m e]; cbn [SFopp];
    rewrite ?negb_involutive; reflexivity.
Qed.

(** [abs(-x)] is [abs(x)]. *)
Lemma abs_opp (x : float) : abs (- x) = abs x.
Proof.
  apply Prim2SF_inj. rewrite !abs_spec, opp_spec.
  destruct (Prim2SF x) as [sg | sg | | sg m e]; reflexivity.
Qed.

(** An infinity or a NaN is within the tolerance of nothing. *)
Lemma not_finite_not_within (x y : float) :
  is_finite x = false -> within_tolerance x y = false.
Proof.
  unfold is_finite, within_tolerance. rewrite ltb_spec, abs_spec, sub_spec.
  destruct (Prim2SF x) as [sx | sx | | sx mx ex]; try discriminate;
    intros _; destruct (Prim2SF y) as [sy | sy | | sy my ey];
    try destruct sx; try destruct sy; reflexivity.
Qed.

(** The conversion of an integer commutes with negation, zero apart. *)
Lemma float_of_Z_opp (z : Z) :
  z <> 0 -> float_of_Z (- z) = (- float_of_Z z)%float.
Proof.
  destruct z as [| p | p]; intros Hz; [contradiction | reflexivity |].
  cbn [Z.opp float_of_Z]. now rewrite opp_involutive.
Qed.

(** [x <= y] excludes [y < x]. *)
Lemma SFcompare_antisym x y :
  SFcompare y x = option_map CompOpp (SFcompare x y).
Proof.
  destruct x as [sx | sx | | sx mx ex], y as [sy | sy | | sy my ey];
    cbn [SFcompare option_map]; try reflexivity;
    try (destruct sx; reflexivity); try (destruct sy; reflexivity);
    try (destruct sx, sy; reflexivity).
  rewrite (Z.compare_antisym ex ey).
  change (PosDef.Pos.compare_cont Eq my mx)
    with (Pos.compare_cont (CompOpp Eq) my mx).
  rewrite <- (Pos.compare_cont_antisym mx my Eq).
  destruct sx, sy, (ex ?= ey); cbn [CompOpp]; try reflexivity;
    destruct (Pos.compare_cont Eq mx my); reflexivity.
Qed.

Lemma leb_not_ltb (x y : float) :
  (x <=? y)%float = true -> (y <? x)%float = false.
Proof.
  rewrite leb_spec, ltb_spec. unfold SFleb, SFltb.
  rewrite (SFcompare_antisym (Prim2SF x) (Prim2SF y)).
  destruct (SFcompare (Prim2SF x) (Prim2SF y)) as [[ | | ] |];
    cbn; congruence.
Qed.

(** A canonical mantissa, given as exact, is left as it is. *)
Lemma round_aux_canonical sg m e :
  bounded prec emax m e = true ->
  binary_round_aux prec emax sg (Zpos m) e loc_Exact = S754_finite sg m e.
Proof.
  unfold bounded, canonical_mantissa. intros Hb.
  apply andb_prop in Hb. destruct Hb as [Hc He].
  apply Z.eqb_eq in Hc.
  unfold binary_round_aux, shr_fexp.
  cbn [Zdigits2]. rewrite Hc, Z.sub_diag.
  cbn [shr shr_record_of_loc shr_m loc_of_shr_record round_nearest_even
       Zdigits2].
  rewrite Hc, Z.sub_diag. cbn [shr shr_m]. rewrite He. reflexivity.
Qed.

Lemma digits2_pos_size p : digits2_pos p = Pos.size p.
Proof. induction p as [p IH | p IH |]; cbn; congruence. Qed.

Lemma digits2_pos_shift k p :
  Zpos (digits2_pos (shift_pos k p)) = Zpos (digits2_pos p) + Zpos k.
Proof.
  unfold shift_pos. induction k as [| k IH] using Pos.peano_ind.
  - cbn [Pos.iter digits2_pos]. lia.
  - rewrite Pos.iter_succ. cbn [digits2_pos]. lia.
Qed.

Lemma digits2_pos_bound p n :
  0 <= n -> Zpos p < 2 ^ n -> Zpos (digits2_pos p) <= n.
Proof.
  intros Hn Hp. rewrite digits2_pos_size.
  pose proof (Pos.size_le p) as Hle.
  destruct (Z.le_gt_cases (Zpos (Pos.size p)) n) as [H | H]; [exact H |].
  exfalso.
  assert (H2 : 2 ^ (n + 1) <= 2 ^ Zpos (Pos.size p))
    by (apply Z.pow_le_mono_r; lia).
  assert (H3 : 2 ^ Zpos (Pos.size p) <= 2 * Zpos p).
  { change (2 * Zpos p) with (Zpos p~0).
    rewrite <- Pos2Z.inj_pow. apply Pos2Z.pos_le_pos. exact Hle. }
  rewrite Z.pow_add_r in H2 by lia. lia.
Qed.

(** Below 2^53 the conversion of an int to a float is exact. *)
Lemma float_of_pos_exact p :
  Zpos p < 2 ^ 53 ->
  exists m e, Prim2SF (float_of_pos p) = S754_finite false m e
              /\ - 52 <= e <= 0 /\ Zpos m = Zpos p * 2 ^ (- e).
Proof.
  intros Hp.
  pose proof (digits2_pos_bound p 53 ltac:(lia) Hp) as Hd.
  assert (Hd0 : 0 < Zpos (digits2_pos p)) by lia.
  unfold float_of_pos, binary_round, shl_align, fexp.
  replace (Z.max (Zpos (digits2_pos p) + 0 - prec) (SpecFloat.emin prec emax))
    with (Zpos (digits2_pos p) - 53)
    by (unfold prec, SpecFloat.emin, emax; lia).
  rewrite Z.sub_0_r.
  destruct (Zpos (digits2_pos p) - 53) as [| q | q] eqn:Hq; try lia.
  - exists p, 0. rewrite round_aux_canonical, Prim2SF_SF2Prim.
    + repeat split; lia.
    + cbn [valid_binary]. unfold bounded, canonical_mantissa, fexp.
      apply andb_true_intro. split; [apply Z.eqb_eq | apply Z.leb_le];
        unfold prec, SpecFloat.emin, emax; lia.
    + unfold bounded, canonical_mantissa, fexp.
      apply andb_true_intro. split; [apply Z.eqb_eq | apply Z.leb_le];
        unfold prec, SpecFloat.emin, emax; lia.
  - assert (Hb : bounded prec emax (shift_pos q p) (Zneg q) = true).
    { unfold bounded, canonical_mantissa, fexp.
      rewrite digits2_pos_shift.
      apply andb_true_intro. split; [apply Z.eqb_eq | apply Z.leb_le];
        unfold prec, SpecFloat.emin, emax; lia. }
    change (PosDef.Pos.iter xO p q) with (shift_pos q p).
    exists (shift_pos q p), (Zneg q).
    rewrite round_aux_canonical, Prim2SF_SF2Prim by assumption.
    repeat split; try lia.
    rewrite shift_pos_correct, Z.pow_pos_fold. cbn [Z.opp]. lia.
Qed.

Lemma float_ceil_exact z :
  0 <= z < 2 ^ 53 ->
  float_ceil (float_of_Z z) = Some z /\ is_nan (float_of_Z z) = false.
Proof.
  intros Hz. destruct z as [| p | p]; [split; reflexivity | | lia].
  cbn [float_of_Z].
  destruct (float_of_pos_exact p ltac:(lia)) as (m & e & Hm & He & Hv).
  split.
  - unfold float_ceil. rewrite Hm. f_equal.
    destruct (0 <=? e) eqn:H0.
    + apply Z.leb_le in H0. replace e with 0 in * by lia.
      cbn [Z.opp] in Hv. lia.
    + rewrite Hv. rewrite <- Z.mul_opp_l.
      rewrite Z.div_mul by (apply Z.pow_nonzero; lia). lia.
  - unfold is_nan. rewrite eqb_spec, Hm. cbn [SFeqb SFcompare].
    rewrite Z.compare_refl, Pos.compare_cont_refl. reflexivity.
Qed.

End FloatFacts.

(* ================================================================= *)
(** * The error monad and the fuel *)

Section MonadFacts.

Context {A B : Type}.

Lemma bind_ext (c : result A) (k k' : A -> result B) :
  (forall a, k a = k' a) -> bind c k = bind c k'.
Proof. intros H. destruct c; cbn [bind]; auto. Qed.

Lemma run_fbind (r : result A) (k : A -> option (result B)) :
  run (fbind (Some r) k) = bind r (fun a => run (k a)).
Proof. destruct r; reflexivity. Qed.

Lemma refines_fbind (c c' : option (result A)) (k k' : A -> option (result B)) :
  refines c c' -> (forall a, refines (k a) (k' a)) ->
  refines (fbind c k) (fbind c' k').
Proof.
  intros Hc Hk r. destruct c as [[a | e] |]; cbn [fbind]; intros H.
  - rewrite (Hc _ eq_refl). cbn [fbind]. now apply Hk.
  - rewrite (Hc _ eq_refl). exact H.
  - discriminate.
Qed.

Lemma fbind_some (c : option (result A)) (k : A -> option (result B)) :
  (exists r, c = Some r) -> (forall a, exists r, k a = Some r) ->
  exists r, fbind c k = Some r.
Proof.
  intros [[a | e] ->] Hk; cbn [fbind]; [apply Hk | eauto].
Qed.

End MonadFacts.

(* ================================================================= *)
(** * [coefficients.py]: validation, base case and recurrence *)

Section CoefficientsFacts.

Variable L : NumLib.

Import Coefficients.

Lemma validate_ok_iff alpha s method :
  _validate_inputs alpha s method = Ok tt <->
  recognized method = true /\ (1 <? alpha)%float = false
  /\ (s <? 0)%float = false.
Proof.
  unfold _validate_inputs, recognized.
  destruct (existsb _ _); cbn [negb];
    [destruct (1 <? alpha)%float; [| destruct (s <? 0)%float] |];
    split; try discriminate; intuition (try discriminate; auto).
Qed.

(** The error of a failed validation is one of the three of the source. *)
Lemma validate_raises alpha s method e :
  _validate_inputs alpha s method = Raise e -> is_validation_error e = true.
Proof.
  unfold _validate_inputs.
  destruct (negb _); [intros [= <-]; reflexivity |].
  destruct (1 <? alpha)%float; [intros [= <-]; reflexivity |].
  destruct (s <? 0)%float; [intros [= <-]; reflexivity | discriminate].
Qed.

(** Validation of [(alpha, s)] carries over to [(alpha, s + 1)]. *)
Lemma validate_shift alpha s method :
  _validate_inputs alpha s method = Ok tt ->
  _validate_inputs alpha (s + 1)%float method = Ok tt.
Proof.
  rewrite !validate_ok_iff. intros (Hm & Ha & Hs).
  auto using add_one_not_neg.
Qed.

Lemma lc_invalid alpha s j method e :
  _validate_inputs alpha s method = Raise e -> lc L alpha s j method = Raise e.
Proof. unfold lc. now intros ->. Qed.

Lemma arange_length_raises value e :
  arange_length value = Raise e -> arange_error e.
Proof.
  unfold arange_length, arange_error.
  destruct (float_ceil _) as [len |].
  - destruct (_ || _); [intros [= <-]; auto | discriminate].
  - destruct (is_nan _); intros [= <-]; auto.
Qed.

Lemma np_empty_raises len e : np_empty len = Raise e -> arange_error e.
Proof.
  unfold np_empty, arange_error.
  destruct (len <=? 0); [discriminate |].
  destruct (2 ^ 60 <=? len); [intros [= <-]; auto | discriminate].
Qed.

Lemma np_arange_raises a b e : np_arange a b = Raise e -> arange_error e.
Proof.
  unfold np_arange.
  destruct (arange_length _) as [len | e'] eqn:Hlen; cbn [bind];
    [| intros [= <-]; eapply arange_length_raises, Hlen].
  destruct (np_empty len) as [n | e'] eqn:Hn; cbn [bind];
    [discriminate | intros [= <-]; eapply np_empty_raises, Hn].
Qed.

Lemma np_arange_float_raises start stop e :
  np_arange_float start stop = Raise e -> arange_error e.
Proof.
  unfold np_arange_float.
  destruct (arange_length _) as [len | e'] eqn:Hlen; cbn [bind];
    [| intros [= <-]; eapply arange_length_raises, Hlen].
  destruct (np_empty len) as [n | e'] eqn:Hn; cbn [bind];
    [discriminate | intros [= <-]; eapply np_empty_raises, Hn].
Qed.

(** A length below 2^53 is computed exactly, and the array has the
    entries a, a + 1, ..., a + z - 1. *)
Lemma arange_length_exact z :
  0 <= z < 2 ^ 53 -> arange_length (float_of_Z z) = Ok z.
Proof.
  intros Hz. unfold arange_length.
  rewrite (proj1 (float_ceil_exact z Hz)).
  replace ((z <? - 2 ^ 63) || (2 ^ 63 <? z)) with false
    by (symmetry; apply orb_false_intro; apply Z.ltb_ge; lia).
  f_equal. unfold wrap64. rewrite Z.mod_small; lia.
Qed.

Lemma np_arange_exact a z :
  0 <= z < 2 ^ 53 -> np_arange a (a + z) = Ok (np_arange_int a (a + z)).
Proof.
  intros Hz. unfold np_arange.
  replace (a + z - a) with z by lia.
  rewrite arange_length_exact by assumption. cbn [bind].
  unfold np_empty.
  destruct (z <=? 0) eqn:H0; cbn [bind].
  - apply Z.leb_le in H0. replace z with 0 by lia. reflexivity.
  - replace (2 ^ 60 <=? z) with false by (symmetry; apply Z.leb_gt; lia).
    cbn [bind]. rewrite Z2Nat.id by lia. reflexivity.
Qed.

Lemma arange_error_not_validation e :
  arange_error e -> is_validation_error e = false.
Proof. intros [-> | [-> | ->]]; reflexivity. Qed.

Lemma arange_error_not_type e : arange_error e -> forall msg, e <> TypeError msg.
Proof. intros [-> | [-> | ->]]; discriminate. Qed.

(** Past its validation, [lc] raises no validation error. *)
Lemma lc_error_not_validation alpha s j method e :
  _validate_inputs alpha s method = Ok tt ->
  lc L alpha s j method = Raise e -> is_validation_error e = false.
Proof.
  unfold lc. intros ->. cbn [bind].
  destruct (method =? "hyper")%string.
  - destruct (np_arange _ _) as [ints | e'] eqn:Hints; cbn [bind];
      [| intros [= <-];
         eapply arange_error_not_validation, np_arange_raises, Hints].
    destruct (np_arange_float _ _) as [arr | e'] eqn:Harr; cbn [bind].
    + destruct (hyp2f1 L _ _ _ _); cbn [lift_lib bind];
        [discriminate | intros [= <-]; reflexivity].
    + intros [= <-].
      eapply arange_error_not_validation, np_arange_float_raises, Harr.
  - destruct (quad L _ _ _) as [[res err] |]; cbn [lift_lib bind];
      [discriminate | intros [= <-]; reflexivity].
Qed.

Lemma dnlc_fuel_invalid k alpha s j n method e :
  _validate_inputs alpha s method = Raise e ->
  dnlc_fuel L k alpha s j n method = Some (Raise e).
Proof. destruct k; cbn [dnlc_fuel]; now intros ->. Qed.

Lemma dnlc_fuel_base k alpha s j n method :
  _validate_inputs alpha s method = Ok tt -> n <= 0 ->
  dnlc_fuel L k alpha s j n method
  = Some (x <- lc L alpha s j method ;;
          Ok (float_of_Z (Z.max 0 (n + 1)) * x)%float).
Proof.
  intros Hv Hn. apply Z.leb_le in Hn.
  destruct k; cbn [dnlc_fuel]; now rewrite Hv, Hn.
Qed.

Lemma dnlc_fuel_step k alpha s j n method :
  _validate_inputs alpha s method = Ok tt -> 0 < n ->
  dnlc_fuel L (S k) alpha s j n method
  = (d1 <-- dnlc_fuel L k alpha (s + 1)%float (j - 1) (n - 1) method ;;
     d2 <-- dnlc_fuel L k alpha (s + 1)%float j (n - 1) method ;;
     d3 <-- dnlc_fuel L k alpha (s + 1)%float (j + 1) (n - 1) method ;;
     d4 <-- dnlc_fuel L k alpha (s + 1)%float j (n - 2) method ;;
     Some (Ok (s * (d1 - 2 * alpha * d2 + d3
                    - float_of_Z (2 * (n - 1)) * d4))%float)).
Proof.
  intros Hv Hn. apply Z.leb_gt in Hn.
  cbn [dnlc_fuel]. now rewrite Hv, Hn.
Qed.

Lemma dnlc_fuel_zero alpha s j n method :
  _validate_inputs alpha s method = Ok tt -> 0 < n ->
  dnlc_fuel L 0 alpha s j n method = None.
Proof.
  intros Hv Hn. apply Z.leb_gt in Hn.
  cbn [dnlc_fuel]. now rewrite Hv, Hn.
Qed.

(** More stack never changes an outcome. *)
Lemma dnlc_fuel_mono k : forall k' alpha s j n method,
  (k <= k')%nat ->
  refines (dnlc_fuel L k alpha s j n method)
          (dnlc_fuel L k' alpha s j n method).
Proof.
  induction k as [| k IH]; intros k' alpha s j n method Hk.
  - destruct (_validate_inputs alpha s method) as [[] | e] eqn:Hv.
    + destruct (Z.le_gt_cases n 0) as [Hn | Hn].
      * rewrite !dnlc_fuel_base by assumption. now intros r.
      * rewrite dnlc_fuel_zero by assumption. intros r. discriminate.
    + rewrite !(dnlc_fuel_invalid _ _ _ _ _ _ _ Hv). now intros r.
  - destruct k' as [| k']; [lia |].
    destruct (_validate_inputs alpha s method) as [[] | e] eqn:Hv.
    + destruct (Z.le_gt_cases n 0) as [Hn | Hn].
      * rewrite !dnlc_fuel_base by assumption. now intros r.
      * rewrite !dnlc_fuel_step by assumption.
        repeat (apply refines_fbind; [apply IH; lia | intros ?]).
        now intros r.
    + rewrite !(dnlc_fuel_invalid _ _ _ _ _ _ _ Hv). now intros r.
Qed.

(** [n] frames are enough. *)
Lemma dnlc_fuel_enough k : forall alpha s j n method,
  (Z.to_nat n <= k)%nat ->
  exists r, dnlc_fuel L k alpha s j n method = Some r.
Proof.
  induction k as [| k IH]; intros alpha s j n method Hk;
    destruct (_validate_inputs alpha s method) as [[] | e] eqn:Hv;
    try (rewrite (dnlc_fuel_invalid _ _ _ _ _ _ _ Hv); eauto; fail);
    destruct (Z.le_gt_cases n 0) as [Hn | Hn];
    try (rewrite dnlc_fuel_base by assumption; eauto; fail).
  - lia.
  - rewrite dnlc_fuel_step by assumption.
    repeat (apply fbind_some; [apply IH; lia | intros ?]).
    eauto.
Qed.

(** Fewer than [n] frames are not, on an input that passes validation. *)
Lemma dnlc_fuel_short k : forall alpha s j n method,
  _validate_inputs alpha s method = Ok tt -> (k < Z.to_nat n)%nat ->
  dnlc_fuel L k alpha s j n method = None.
Proof.
  induction k as [| k IH]; intros alpha s j n method Hv Hk.
  - apply dnlc_fuel_zero; [assumption | lia].
  - rewrite dnlc_fuel_step by (assumption || lia).
    rewrite IH; [reflexivity | now apply validate_shift | lia].
Qed.

Lemma dnlc_fuel_dnlc k alpha s j n method :
  (Z.to_nat n <= k)%nat ->
  dnlc_fuel L k alpha s j n method = Some (dnlc L alpha s j n method).
Proof.
  intros Hk. unfold dnlc.
  destruct (dnlc_fuel_enough (Z.to_nat n) alpha s j n method (le_n _))
    as [r Hr].
  rewrite Hr. cbn [run]. now apply (dnlc_fuel_mono _ _ _ _ _ _ _ Hk).
Qed.

End CoefficientsFacts.

(* ================================================================= *)
(** * The derivative engine *)

Section Derivative.

Variable L : NumLib.

Import Coefficients.

Lemma valid_input_validate alpha s method :
  valid_input alpha s method <-> _validate_inputs alpha s method = Ok tt.
Proof. symmetry. apply validate_ok_iff. Qed.

(** The domain as the specification words it, [alpha <= 1] and [s >= 0],
    is a valid input. *)
Lemma valid_input_of_bounds alpha s method :
  recognized method = true -> (alpha <=? 1)%float = true ->
  (0 <=? s)%float = true -> valid_input alpha s method.
Proof.
  intros Hm Ha Hs. repeat split; auto using leb_not_ltb.
Qed.

(** C1: for every valid input and every n > 0, [dnlc(alpha, s, j, n, method)]
    is s * (D1 - 2 alpha D2 + D3 - 2 (n - 1) D4), where D1, D2, D3 are the
    order n - 1 derivatives at s + 1 and j - 1, j, j + 1 and D4 is the order
    n - 2 derivative at s + 1 and j, the four computed in this order with the
    method of the caller; an exception of a sub-call is the exception of the
    call. *)
Theorem dnlc_recurrence alpha s j n method :
  valid_input alpha s method -> 0 < n ->
  dnlc L alpha s j n method
  = (d1 <- dnlc L alpha (s + 1)%float (j - 1) (n - 1) method ;;
     d2 <- dnlc L alpha (s + 1)%float j (n - 1) method ;;
     d3 <- dnlc L alpha (s + 1)%float (j + 1) (n - 1) method ;;
     d4 <- dnlc L alpha (s + 1)%float j (n - 2) method ;;
     Ok (s * (d1 - 2 * alpha * d2 + d3
              - float_of_Z (2 * (n - 1)) * d4))%float).
Proof.
  intros Hv Hn. apply valid_input_validate in Hv.
  unfold dnlc at 1.
  replace (Z.to_nat n) with (S (Z.to_nat (n - 1))) by lia.
  rewrite dnlc_fuel_step by assumption.
  rewrite !dnlc_fuel_dnlc by lia.
  rewrite run_fbind. apply bind_ext. intros d1.
  rewrite run_fbind. apply bind_ext. intros d2.
  rewrite run_fbind. apply bind_ext. intros d3.
  rewrite run_fbind. reflexivity.
Qed.

(** The base case, on every input. *)
Lemma dnlc_base alpha s j n method :
  n <= 0 ->
  dnlc L alpha s j n method
  = (_ <- _validate_inputs alpha s method ;;
     x <- lc L alpha s j method ;;
     Ok (float_of_Z (Z.max 0 (n + 1)) * x)%float).
Proof.
  intros Hn. unfold dnlc.
  destruct (_validate_inputs alpha s method) as [[] | e] eqn:Hv.
  - now rewrite dnlc_fuel_base.
  - now rewrite (dnlc_fuel_invalid _ _ _ _ _ _ _ _ Hv).
Qed.

(** Order zero is the coefficient itself, on every input. *)
Lemma dnlc_zero alpha s j method :
  dnlc L alpha s j 0 method = lc L alpha s j method.
Proof.
  rewrite dnlc_base by lia.
  destruct (_validate_inputs alpha s method) as [[] | e] eqn:Hv; cbn [bind].
  - destruct (lc L alpha s j method) as [x | e]; cbn [bind]; [| reflexivity].
    change (float_of_Z (Z.max 0 (0 + 1))) with 1%float.
    now rewrite mul_one_l.
  - symmetry. now apply lc_invalid.
Qed.

(** C2, amended: for every valid input and every n <= 0,
    [dnlc(alpha, s, j, n, method)] is max(0, n + 1) * lc(alpha, s, j, method);
    at n = 0 it is lc(alpha, s, j, method) itself; at n < 0 it is 0 * lc(...),
    which compares equal to 0.0 when lc returns a finite value and is NaN
    when lc returns an infinity or NaN. *)
Theorem dnlc_base_case alpha s j n method :
  valid_input alpha s method -> n <= 0 ->
  dnlc L alpha s j n method
  = (x <- lc L alpha s j method ;;
     Ok (float_of_Z (Z.max 0 (n + 1)) * x)%float)
  /\ (n = 0 -> dnlc L alpha s j n method = lc L alpha s j method)
  /\ (n < 0 -> forall x, lc L alpha s j method = Ok x ->
      exists z, dnlc L alpha s j n method = Ok z
      /\ if is_finite x then (z =? 0)%float = true else z = nan).
Proof.
  intros Hv Hn. apply valid_input_validate in Hv.
  assert (Hb := dnlc_base alpha s j n method Hn).
  rewrite Hv in Hb. cbn [bind] in Hb.
  split; [exact Hb |]. split.
  - intros ->. apply dnlc_zero.
  - intros Hneg x Hx. rewrite Hb, Hx. cbn [bind].
    replace (Z.max 0 (n + 1)) with 0 by lia. cbn [float_of_Z].
    eexists. split; [reflexivity |].
    destruct (is_finite x) eqn:Hf;
      [now apply mul_zero_finite | now apply mul_zero_not_finite].
Qed.

(** C10: for n < 0, [dnlc] is not the constant 0.0: it validates its inputs,
    then calls [lc], then multiplies the value by max(0, n + 1) = 0. A failed
    validation raises its error, and an exception of [lc] is the exception
    of [dnlc]. *)
Theorem dnlc_negative_order alpha s j n method :
  n < 0 ->
  dnlc L alpha s j n method
  = (_ <- _validate_inputs alpha s method ;;
     x <- lc L alpha s j method ;;
     Ok (0 * x)%float)
  /\ (forall e, _validate_inputs alpha s method = Raise e ->
      dnlc L alpha s j n method = Raise e)
  /\ (forall e, lc L alpha s j method = Raise e ->
      dnlc L alpha s j n method = Raise e).
Proof.
  intros Hn.
  assert (Hb := dnlc_base alpha s j n method ltac:(lia)).
  replace (Z.max 0 (n + 1)) with 0 in Hb by lia. cbn [float_of_Z] in Hb.
  split; [exact Hb |]. split.
  - intros e He. now rewrite Hb, He.
  - intros e He. rewrite Hb.
    destruct (_validate_inputs alpha s method) as [[] | e'] eqn:Hv; cbn [bind].
    + now rewrite He.
    + rewrite (lc_invalid L _ _ j _ _ Hv) in He. exact He.
Qed.

End Derivative.

(* ================================================================= *)
(** * Validation *)

Section Validation.

Variable L : NumLib.

Import Coefficients.

(** Past its validation, [dnlc] raises no validation error, whatever the
    stack. *)
Lemma dnlc_fuel_error_not_validation k : forall alpha s j n method e,
  _validate_inputs alpha s method = Ok tt ->
  dnlc_fuel L k alpha s j n method = Some (Raise e) ->
  is_validation_error e = false.
Proof.
  assert (Hbase : forall k alpha s j n method e,
    _validate_inputs alpha s method = Ok tt -> n <= 0 ->
    dnlc_fuel L k alpha s j n method = Some (Raise e) ->
    is_validation_error e = false).
  { intros k' alpha s j n method e Hv Hn.
    rewrite dnlc_fuel_base by assumption.
    destruct (lc L alpha s j method) as [x | e'] eqn:Hlc; cbn [bind];
      [discriminate | intros [= <-]].
    eapply lc_error_not_validation; eassumption. }
  induction k as [| k IH]; intros alpha s j n method e Hv;
    destruct (Z.le_gt_cases n 0) as [Hn | Hn]; try (now apply Hbase).
  - now rewrite dnlc_fuel_zero.
  - rewrite dnlc_fuel_step by assumption.
    pose proof (validate_shift _ _ _ Hv) as Hv'.
    destruct (dnlc_fuel L k alpha (s + 1)%float (j - 1) (n - 1) method)
      as [[d1 | e1] |] eqn:H1; cbn [fbind];
      [| intros [= <-]; now apply (IH _ _ _ _ _ _ Hv' H1) | discriminate].
    destruct (dnlc_fuel L k alpha (s + 1)%float j (n - 1) method)
      as [[d2 | e2] |] eqn:H2; cbn [fbind];
      [| intros [= <-]; now apply (IH _ _ _ _ _ _ Hv' H2) | discriminate].
    destruct (dnlc_fuel L k alpha (s + 1)%float (j + 1) (n - 1) method)
      as [[d3 | e3] |] eqn:H3; cbn [fbind];
      [| intros [= <-]; now apply (IH _ _ _ _ _ _ Hv' H3) | discriminate].
    destruct (dnlc_fuel L k alpha (s + 1)%float j (n - 2) method)
      as [[d4 | e4] |] eqn:H4; cbn [fbind];
      [discriminate | intros [= <-]; now apply (IH _ _ _ _ _ _ Hv' H4)
      | discriminate].
Qed.

Lemma dnlc_error_not_validation alpha s j n method e :
  _validate_inputs alpha s method = Ok tt ->
  dnlc L alpha s j n method = Raise e -> is_validation_error e = false.
Proof.
  intros Hv. unfold dnlc.
  destruct (dnlc_fuel L _ alpha s j n method) as [r |] eqn:Hd; cbn [run].
  - intros ->. eapply dnlc_fuel_error_not_validation; eassumption.
  - intros [= <-]. reflexivity.
Qed.

Lemma dnlc_invalid alpha s j n method e :
  _validate_inputs alpha s method = Raise e ->
  dnlc L alpha s j n method = Raise e.
Proof.
  intros Hv. unfold dnlc. now rewrite (dnlc_fuel_invalid _ _ _ _ _ _ _ _ Hv).
Qed.

(** Which error a failed validation is. *)
Lemma validate_cases alpha s method :
  match _validate_inputs alpha s method with
  | Ok _ =>
      recognized method = true /\ (1 <? alpha)%float = false
      /\ (s <? 0)%float = false
  | Raise e =>
      if recognized method
      then ((1 <? alpha)%float = true \/ (s <? 0)%float = true)
           /\ is_invalid_domain e = true /\ is_invalid_method e = false
      else is_invalid_method e = true /\ is_invalid_domain e = false
  end.
Proof.
  unfold _validate_inputs, recognized.
  destruct (existsb _ _); cbn [negb]; [| split; reflexivity].
  destruct (1 <? alpha)%float; [repeat split; auto |].
  destruct (s <? 0)%float; repeat split; auto.
Qed.

(** The errors of a function that validates first and raises no validation
    error afterwards. *)
Lemma validated_errors alpha s method (r : result float) :
  (forall e, _validate_inputs alpha s method = Raise e -> r = Raise e) ->
  (forall e, _validate_inputs alpha s method = Ok tt -> r = Raise e ->
             is_validation_error e = false) ->
  ((exists e, r = Raise e /\ is_invalid_method e = true)
   <-> recognized method = false)
  /\ ((exists e, r = Raise e /\ is_invalid_domain e = true)
      <-> recognized method = true
          /\ ((1 <? alpha)%float = true \/ (s <? 0)%float = true)).
Proof.
  intros Hinv Hval. pose proof (validate_cases alpha s method) as Hc.
  destruct (_validate_inputs alpha s method) as [[] | e0] eqn:Hv.
  - destruct Hc as (Hm & Ha & Hs). rewrite Hm, Ha, Hs.
    assert (Hno : forall e, r = Raise e ->
              is_invalid_method e = false /\ is_invalid_domain e = false).
    { intros e He. specialize (Hval e eq_refl He).
      now apply orb_false_elim in Hval. }
    split; split.
    + intros (e & He & Hme). destruct (Hno e He). congruence.
    + discriminate.
    + intros (e & He & Hde). destruct (Hno e He). congruence.
    + intros (_ & [H | H]); discriminate.
  - rewrite (Hinv e0 eq_refl).
    destruct (recognized method); split; split.
    + intros (e & [= <-] & Hme). destruct Hc as (_ & _ & Hc). congruence.
    + discriminate.
    + intros _. split; [reflexivity | apply Hc].
    + intros _. exists e0. split; [reflexivity | apply Hc].
    + reflexivity.
    + intros _. exists e0. split; [reflexivity | apply Hc].
    + intros (e & [= <-] & Hde). destruct Hc as (_ & Hc). congruence.
    + intros (H & _). discriminate.
Qed.

(** C4, amended: [lc] and [dnlc] raise the method error exactly when the
    method is not one of the two recognized identifiers, and a domain error
    exactly when the method is recognized and alpha > 1 or s < 0 (the method
    is tested first); the error of a failed validation is raised whatever
    the numeric library does; every recognized method with alpha <= 1 and
    s >= 0 passes, a negative alpha and s = 0 included. *)
Theorem validation_errors alpha s j n method :
  (((exists e, lc L alpha s j method = Raise e /\ is_invalid_method e = true)
    <-> recognized method = false)
   /\ ((exists e, lc L alpha s j method = Raise e /\ is_invalid_domain e = true)
       <-> recognized method = true
           /\ ((1 <? alpha)%float = true \/ (s <? 0)%float = true)))
  /\ (((exists e, dnlc L alpha s j n method = Raise e
                  /\ is_invalid_method e = true)
       <-> recognized method = false)
      /\ ((exists e, dnlc L alpha s j n method = Raise e
                     /\ is_invalid_domain e = true)
          <-> recognized method = true
              /\ ((1 <? alpha)%float = true \/ (s <? 0)%float = true)))
  /\ (forall e, _validate_inputs alpha s method = Raise e ->
      forall L' : NumLib,
        lc L' alpha s j method = Raise e
        /\ dnlc L' alpha s j n method = Raise e)
  /\ (recognized method = true -> (alpha <=? 1)%float = true ->
      (0 <=? s)%float = true -> _validate_inputs alpha s method = Ok tt)
  /\ _validate_inputs (-1)%float 0%float "hyper" = Ok tt.
Proof.
  split; [| split; [| split; [| split]]].
  - apply validated_errors.
    + intros e. apply lc_invalid.
    + intros e. apply lc_error_not_validation.
  - apply validated_errors.
    + intros e. apply dnlc_invalid.
    + intros e. apply dnlc_error_not_validation.
  - intros e He L'. split.
    + unfold lc. now rewrite He.
    + unfold dnlc. destruct (Z.to_nat n); cbn [dnlc_fuel]; now rewrite He.
  - intros Hm Ha Hs. apply validate_ok_iff.
    repeat split; auto using leb_not_ltb.
  - reflexivity.
Qed.

(** C5: every call of [dnlc], a recursive one included, runs
    [_validate_inputs] on its own arguments before anything else; and when
    the top-level call passes validation, every call reachable through the
    recursion passes it too, so neither such a call nor the [lc] call at its
    leaf raises the method error or a domain error. *)
Theorem subcalls_pass_validation (c c' : call) :
  validates c -> reaches c c' ->
  (forall k alpha s j n method e,
      _validate_inputs alpha s method = Raise e ->
      dnlc_fuel L k alpha s j n method = Some (Raise e))
  /\ validates c'
  /\ (forall e,
      dnlc L (c_alpha c') (c_s c') (c_j c') (c_n c') (c_method c') = Raise e ->
      is_validation_error e = false)
  /\ (forall e,
      lc L (c_alpha c') (c_s c') (c_j c') (c_method c') = Raise e ->
      is_validation_error e = false).
Proof.
  intros Hv Hr.
  assert (Hv' : validates c').
  { induction Hr as [c | c c' c'' Hsub _ IH]; [exact Hv |].
    apply IH. destruct Hsub; unfold validates in *; cbn in *;
      now apply validate_shift. }
  split; [| split; [exact Hv' | split]].
  - intros k alpha s j n method e. apply dnlc_fuel_invalid.
  - intros e. now apply dnlc_error_not_validation.
  - intros e. now apply lc_error_not_validation.
Qed.

End Validation.

(* ================================================================= *)
(** * Symmetry in [j] *)

Section Symmetry.

Variable L : NumLib.

Import Coefficients.

(** C6: [lc(alpha, s, -j, method)] is [lc(alpha, s, j, method)] for either
    method (and on every input): the closed form replaces j by |j|, and the
    integrand of the quadrature is the same function for j and -j as soon as
    the library's cosine is even. *)
Theorem lc_even_in_j alpha s j method :
  (forall x, np_cos L (- x)%float = np_cos L x) ->
  lc L alpha s (- j) method = lc L alpha s j method.
Proof.
  intros Hcos. unfold lc.
  destruct (_validate_inputs alpha s method) as [[] | e]; cbn [bind];
    [| reflexivity].
  destruct (method =? "hyper")%string.
  - now rewrite Z.abs_opp.
  - replace (fun t : float =>
               (np_cos L (float_of_Z (- j) * t)
                * np_power L (1 - 2 * alpha * np_cos L t + alpha * alpha)
                    (- s))%float)
      with (fun t : float =>
               (np_cos L (float_of_Z j * t)
                * np_power L (1 - 2 * alpha * np_cos L t + alpha * alpha)
                    (- s))%float); [reflexivity |].
    apply functional_extensionality. intros t. f_equal.
    destruct (Z.eq_dec j 0) as [-> | Hj]; [reflexivity |].
    now rewrite float_of_Z_opp, mul_opp_l, Hcos.
Qed.

End Symmetry.

(* ================================================================= *)
(** * The two implementations *)

Section Equivalence.

Variable L : NumLib.

Lemma wrap64_small z : - 2 ^ 63 <= z < 2 ^ 63 -> wrap64 z = z.
Proof. intros Hz. unfold wrap64. rewrite Z.mod_small; lia. Qed.

Lemma recognized_cases method :
  recognized method = true ->
  (method =? "hyper")%string = false -> (method =? "brute")%string = true.
Proof.
  unfold recognized. cbn [existsb]. intros H Hh.
  rewrite Hh in H. now rewrite orb_false_r in H.
Qed.

Lemma lc_agree a s j method :
  valid_input a s method ->
  ((method =? "hyper")%string = true -> Z.abs j < 2 ^ 63 - 1) ->
  Laplace.lc L a s j method
  = (x <- Coefficients.lc L a s j method ;; Ok (PyFloat x)).
Proof.
  intros Hv Hj. pose proof Hv as (Hm & Ha & Hs).
  apply valid_input_validate in Hv.
  unfold Laplace.lc, Coefficients.lc. rewrite Hv. cbn [bind].
  fold (recognized method). rewrite Hm, Ha, Hs. cbn [negb].
  destruct (method =? "hyper")%string eqn:Hh.
  - specialize (Hj eq_refl).
    unfold Laplace.np_abs. rewrite (wrap64_small (Z.abs j)) by lia.
    rewrite (wrap64_small (Z.abs j + 1)) by lia.
    destruct (np_arange _ _) as [ints | e]; cbn [bind]; [| reflexivity].
    destruct (np_arange_float _ _) as [arr | e]; cbn [bind]; [| reflexivity].
    destruct (hyp2f1 L _ _ _ _); reflexivity.
  - rewrite (recognized_cases _ Hm Hh).
    destruct (quad L _ _ _) as [[l err] |]; reflexivity.
Qed.

Lemma dnlc_fuel_agree k : forall a s j n method,
  valid_input a s method ->
  ((method =? "hyper")%string = true -> Z.abs j + Z.max 0 n < 2 ^ 63 - 1) ->
  Laplace.dnlc_fuel L k a s j n method
  = Coefficients.dnlc_fuel L k a s j n method.
Proof.
  assert (Hbase : forall k a s j n method,
    valid_input a s method ->
    ((method =? "hyper")%string = true
     -> Z.abs j + Z.max 0 n < 2 ^ 63 - 1) ->
    n <= 0 ->
    Laplace.dnlc_fuel L k a s j n method
    = Coefficients.dnlc_fuel L k a s j n method).
  { intros k' a s j n method Hv Hj Hn.
    rewrite dnlc_fuel_base by (try apply valid_input_validate; assumption).
    apply Z.leb_le in Hn.
    destruct k'; cbn [Laplace.dnlc_fuel]; rewrite Hn;
      (rewrite lc_agree;
       [| assumption | intros Hh; specialize (Hj Hh); lia]);
      destruct (Coefficients.lc L a s j method); reflexivity. }
  induction k as [| k IH]; intros a s j n method Hv Hj;
    destruct (Z.le_gt_cases n 0) as [Hn | Hn]; try (now apply Hbase).
  - rewrite dnlc_fuel_zero by (try apply valid_input_validate; assumption).
    apply Z.leb_gt in Hn. cbn [Laplace.dnlc_fuel]. now rewrite Hn.
  - rewrite dnlc_fuel_step by (try apply valid_input_validate; assumption).
    assert (Hv' : valid_input a (s + 1)%float method).
    { apply valid_input_validate, validate_shift.
      now apply valid_input_validate. }
    pose proof Hn as Hn'. apply Z.leb_gt in Hn'.
    cbn [Laplace.dnlc_fuel]. rewrite Hn'.
    rewrite !IH by (assumption || (intros Hh; specialize (Hj Hh); lia)).
    reflexivity.
Qed.

(** C7, amended: on every valid input, [lc] and [dnlc] of
    [laplace/laplace.py] return what [lc] and [dnlc] of
    [laplace/coefficients.py] return, the same float or the same
    exception, provided that, for the closed form, where [laplace.py]
    takes [np.abs(j)], the index [j] (shifted by the recursion) stays
    inside the 64-bit integers of NumPy: |j| + max(0, n) < 2^63 - 1. *)
Theorem implementations_agree a s j n method :
  valid_input a s method ->
  ((method =? "hyper")%string = true -> Z.abs j + Z.max 0 n < 2 ^ 63 - 1) ->
  Laplace.lc L a s j method
  = (x <- Coefficients.lc L a s j method ;; Ok (PyFloat x))
  /\ Laplace.dnlc L a s j n method = Coefficients.dnlc L a s j n method.
Proof.
  intros Hv Hj. split.
  - apply lc_agree; [assumption | intros Hh; specialize (Hj Hh); lia].
  - unfold Laplace.dnlc, Coefficients.dnlc. now rewrite dnlc_fuel_agree.
Qed.

End Equivalence.

(* ================================================================= *)
(** * Termination and recursion depth *)

Section Termination.

Variable L : NumLib.

Import Coefficients.

Lemma least_fuel_valid tries : forall k alpha s j n method,
  _validate_inputs alpha s method = Ok tt ->
  (k + tries = Z.to_nat n)%nat ->
  least_fuel L tries k alpha s j n method = Z.to_nat n.
Proof.
  induction tries as [| tries IH]; intros k alpha s j n method Hv Hk;
    cbn [least_fuel].
  - lia.
  - rewrite dnlc_fuel_short by (assumption || lia).
    apply IH; [assumption | lia].
Qed.

(** C9, amended: [dnlc] is total: on every input and for every integer n,
    n further frames are enough for the call to complete, and more change
    nothing. The recursion depth is max(0, n) when the call passes
    validation, and 0 when it does not. *)
Theorem dnlc_terminates alpha s j n method :
  (exists r, dnlc_fuel L (Z.to_nat n) alpha s j n method = Some r)
  /\ (forall k, (Z.to_nat n <= k)%nat ->
      dnlc_fuel L k alpha s j n method = Some (dnlc L alpha s j n method))
  /\ (valid_input alpha s method ->
      Z.of_nat (recursion_depth L alpha s j n method) = Z.max 0 n)
  /\ (forall e, _validate_inputs alpha s method = Raise e ->
      recursion_depth L alpha s j n method = 0%nat).
Proof.
  split; [| split; [| split]].
  - apply dnlc_fuel_enough. lia.
  - intros k. apply dnlc_fuel_dnlc.
  - intros Hv. apply valid_input_validate in Hv.
    unfold recursion_depth. rewrite least_fuel_valid by (assumption || lia).
    lia.
  - intros e He. unfold recursion_depth.
    destruct (Z.to_nat n); cbn [least_fuel]; [reflexivity |].
    now rewrite (dnlc_fuel_invalid _ _ _ _ _ _ _ _ He).
Qed.

End Termination.

(* ================================================================= *)
(** * The closed form and the 64-bit factorial *)

Section ClosedForm.

Variable L : NumLib.

Import Coefficients.

(** The closed form as the source computes it. *)
Lemma lc_hyper_unfold alpha s j :
  valid_input alpha s "hyper" ->
  lc L alpha s j "hyper"
  = (ints <- np_arange 1 (Z.abs j + 1) ;;
     arr <- np_arange_float s (s + float_of_Z (Z.abs j))%float ;;
     h <- lift_lib (hyp2f1 L s (s + float_of_Z (Z.abs j))%float
                      (float_of_Z (Z.abs j + 1)) (alpha * alpha)%float) ;;
     Ok (2 * (np_prod_float arr / float_of_Z (np_prod_int ints))
         * np_power L alpha (float_of_Z (Z.abs j)) * h)%float).
Proof.
  intros Hv. apply valid_input_validate in Hv.
  unfold lc. rewrite Hv. reflexivity.
Qed.

(** Up to 2^53 entries, where the length is computed exactly,
    [np.arange(1, j + 1)] counts from 1 to j, and the closed form is the
    one with the product of these j entries. *)
Lemma np_arange_small z :
  0 <= z < 2 ^ 53 -> np_arange 1 (z + 1) = Ok (np_arange_int 1 (z + 1)).
Proof.
  intros Hz. replace (z + 1) with (1 + z) by lia. now apply np_arange_exact.
Qed.

Lemma lc_hyper_small alpha s j :
  valid_input alpha s "hyper" -> Z.abs j < 2 ^ 53 ->
  lc L alpha s j "hyper"
  = (arr <- np_arange_float s (s + float_of_Z (Z.abs j))%float ;;
     h <- lift_lib (hyp2f1 L s (s + float_of_Z (Z.abs j))%float
                      (float_of_Z (Z.abs j + 1)) (alpha * alpha)%float) ;;
     Ok (2 * (np_prod_float arr
              / float_of_Z (np_prod_int (np_arange_int 1 (Z.abs j + 1))))
         * np_power L alpha (float_of_Z (Z.abs j)) * h)%float).
Proof.
  intros Hv Hj. rewrite lc_hyper_unfold by assumption.
  rewrite np_arange_small by lia. reflexivity.
Qed.

(** Up to 20 the 64-bit product is the factorial. *)
Lemma np_prod_int_factorial (k : nat) :
  (k <= 20)%nat ->
  np_prod_int (np_arange_int 1 (Z.of_nat k + 1)) = factorial k.
Proof.
  intros Hk.
  assert (H : forallb
                (fun i => np_prod_int (np_arange_int 1 (Z.of_nat i + 1))
                          =? factorial i)
                (seq 0 21) = true) by (vm_compute; reflexivity).
  rewrite forallb_forall in H.
  apply Z.eqb_eq, H, in_seq. lia.
Qed.

Lemma mul_not_finite_l (x y : float) :
  is_finite x = false -> is_finite (x * y) = false.
Proof.
  unfold is_finite. rewrite mul_spec.
  destruct (Prim2SF x) as [sx | sx | | sx mx ex]; try discriminate;
    intros _; destruct (Prim2SF y) as [sy | sy | | sy my ey]; reflexivity.
Qed.

(** At j = 66 the 64-bit product is 0 and the quotient q / p is infinite:
    whatever the library returns, the closed form is an infinity or NaN. *)
Lemma lc_not_finite_at_66 :
  match lc L 0.5 0.5 66 "hyper" with
  | Ok x => is_finite x = false
  | Raise e => e = ComputationError
  end.
Proof.
  rewrite lc_hyper_small by (repeat split; reflexivity || lia).
  replace (np_arange_float 0.5 (0.5 + float_of_Z (Z.abs 66))%float)
    with (Ok (map (fun i => (0.5 + float_of_Z (Z.of_nat i))%float) (seq 0 66)))
    by (vm_compute; reflexivity).
  cbn [bind].
  destruct (hyp2f1 L _ _ _ _) as [h |]; cbn [lift_lib bind]; [| reflexivity].
  apply mul_not_finite_l, mul_not_finite_l. vm_compute. reflexivity.
Qed.

(** There the sentinel of order -1 is NaN, not zero. *)
Lemma dnlc_order_minus_one_at_66 :
  dnlc L 0.5 0.5 66 (-1) "hyper" = Ok nan
  \/ dnlc L 0.5 0.5 66 (-1) "hyper" = Raise ComputationError.
Proof.
  rewrite dnlc_base by lia.
  change (_validate_inputs 0.5 0.5 "hyper") with (Ok tt). cbn [bind].
  pose proof lc_not_finite_at_66 as H.
  destruct (lc L 0.5 0.5 66 "hyper") as [x | e]; cbn [bind].
  - left. f_equal. now apply mul_zero_not_finite.
  - right. now rewrite H.
Qed.

(** [np.prod] may as well start from 1.0. *)
Lemma np_prod_float_fold (l : list float) :
  np_prod_float l = fold_left PrimFloat.mul l 1%float.
Proof.
  destruct l as [| x xs]; [reflexivity |].
  cbn [np_prod_float fold_left]. now rewrite mul_one_l.
Qed.

End ClosedForm.

(** On the half-integers 0, 0.5, ..., 19.5 and for j up to 39,
    [np.arange(s, s + j)] is the j terms s, s + 1, ..., s + j - 1. *)
Example np_arange_float_half_integers :
  forallb
    (fun k =>
       let s := (float_of_Z (Z.of_nat k) / 2)%float in
       forallb
         (fun j =>
            match np_arange_float s (s + float_of_Z (Z.of_nat j))%float with
            | Ok arr =>
                Nat.eqb (List.length arr) j
                && forallb
                     (fun i => (nth i arr nan
                                =? s + float_of_Z (Z.of_nat i))%float)
                     (seq 0 j)
            | Raise _ => false
            end)
         (seq 0 40))
    (seq 0 40) = true.
Proof. vm_compute. reflexivity. Qed.

(** C3, at the failing input j = 21: the product that stands for 21! wraps
    around to a negative number, and the coefficient comes out negative; at
    j = 66 the product is 0. (Off the half-integers the other product can
    fail too: [np.arange(1.7, 2.7)] has two terms.) *)
Theorem lc_factorial_wraps_at_21 :
  np_prod_int (np_arange_int 1 (Z.abs 21 + 1)) = -4249290049419214848
  /\ factorial 21 = 51090942171709440000
  /\ np_prod_int (np_arange_int 1 (Z.abs 66 + 1)) = 0
  /\ (exists x, Coefficients.lc Reference.lib 0.5 0.5 21 "hyper" = Ok x
                /\ (x <? 0)%float = true)
  /\ np_arange_float 0x1.b333333333333p+0
       (0x1.b333333333333p+0 + float_of_Z 1)%float
     = Ok [0x1.b333333333333p+0; 0x1.b333333333333p+0 + 1]%float.
Proof.
  repeat split; try (vm_compute; reflexivity).
  eexists. split; vm_compute; reflexivity.
Qed.

(** C8, at two failing inputs. At alpha = 0.5, s = 0.5, j = 66 the closed
    form is an infinity or NaN whatever the library returns, so it is within
    1e-5 of no value of the quadrature. At alpha = 0.9, s = 0.5, j = 21, on
    the reference library, the closed form is -0.708566 and the
    quadrature 0.058932, each to 1e-5. *)
Theorem cross_method_disagreement (L : NumLib) :
  match Coefficients.lc L 0.5 0.5 66 "hyper" with
  | Ok x => forall y, within_tolerance x y = false
  | Raise e => e = ComputationError
  end
  /\ exists x y,
      Coefficients.lc Reference.lib 0x1.ccccccccccccdp-1 0.5 21 "hyper" = Ok x
      /\ Coefficients.lc Reference.lib 0x1.ccccccccccccdp-1 0.5 21 "brute"
         = Ok y
      /\ within_tolerance x (-0x1.6ac929aa1d756p-1) = true
      /\ within_tolerance y 0x1.e2c55c96030c2p-5 = true
      /\ within_tolerance x y = false.
Proof.
  split.
  - pose proof (lc_not_finite_at_66 L) as H.
    destruct (Coefficients.lc L 0.5 0.5 66 "hyper") as [x | e]; [| exact H].
    intros y. now apply not_finite_not_within.
  - do 2 eexists. repeat split; vm_compute; reflexivity.
Qed.

(* ================================================================= *)
(** * Runs on the reference library *)

Import Reference.

(** The cosine of the reference library is even. *)
Lemma ref_cos_even (x : float) : ref_cos (- x)%float = ref_cos x.
Proof. unfold ref_cos. now rewrite abs_opp. Qed.

(** The docstring example of [lc]: b_{1/2}^1(0.5) = 0.555866197926681. *)
Example lc_docstring_example :
  Coefficients.lc lib 0.5 0.5 1 "hyper" = Ok 0x1.1c9a7e8a180aep-1%float.
Proof. vm_compute. reflexivity. Qed.

(** The test table (Murray and Dermott, table 6.1), each row by both
    methods, as [tests/test_coefficients.py] asserts it.
    A0: 0.5 * lc(alpha, 0.5, 0) is within 1e-5 of 1.06671. *)
Example test_coefficient_A0 :
  forallb
    (fun method =>
       close_to (x <- Coefficients.lc lib alpha_3_1 0.5 0 method ;;
                 Ok (0.5 * x)%float)
                0x1.1113e81450efep+0)
    ["hyper"; "brute"]%string = true.
Proof. vm_compute. reflexivity. Qed.

(** A1: 0.125 * (2 alpha dnlc(alpha, 0.5, 0, 1)
    + alpha^2 dnlc(alpha, 0.5, 0, 2)) is within 1e-5 of 0.142097. *)
Example test_coefficient_A1 :
  forallb
    (fun method =>
       close_to (d1 <- Coefficients.dnlc lib alpha_3_1 0.5 0 1 method ;;
                 d2 <- Coefficients.dnlc lib alpha_3_1 0.5 0 2 method ;;
                 Ok (0.125 * (2 * alpha_3_1 * d1
                              + alpha_3_1 * alpha_3_1 * d2))%float)
                0x1.2303c07ee0b0bp-3)
    ["hyper"; "brute"]%string = true.
Proof. vm_compute. reflexivity. Qed.

(** A2: -0.5 * alpha * lc(alpha, 1.5, 1) is within 1e-5 of -0.568387. *)
Example test_coefficient_A2 :
  forallb
    (fun method =>
       close_to (x <- Coefficients.lc lib alpha_3_1 1.5 1 method ;;
                 Ok (-0.5 * alpha_3_1 * x)%float)
                (-0x1.23039ef0f16f4p-1))
    ["hyper"; "brute"]%string = true.
Proof. vm_compute. reflexivity. Qed.

(** A3: 0.25 * (2 lc(alpha, 0.5, 1) - 2 alpha dnlc(alpha, 0.5, 1, 1)
    - alpha^2 dnlc(alpha, 0.5, 1, 2)) is within 1e-5 of -0.165406. *)
Example test_coefficient_A3 :
  forallb
    (fun method =>
       close_to (x <- Coefficients.lc lib alpha_3_1 0.5 1 method ;;
                 d1 <- Coefficients.dnlc lib alpha_3_1 0.5 1 1 method ;;
                 d2 <- Coefficients.dnlc lib alpha_3_1 0.5 1 2 method ;;
                 Ok (0.25 * (2 * x - 2 * alpha_3_1 * d1
                             - alpha_3_1 * alpha_3_1 * d2))%float)
                (-0x1.52c061847f562p-3))
    ["hyper"; "brute"]%string = true.
Proof. vm_compute. reflexivity. Qed.

(** A4: alpha * lc(alpha, 1.5, 1) is within 1e-5 of 1.13677. *)
Example test_coefficient_A4 :
  forallb
    (fun method =>
       close_to (x <- Coefficients.lc lib alpha_3_1 1.5 1 method ;;
                 Ok (alpha_3_1 * x)%float)
                0x1.23035bd512ec7p+0)
    ["hyper"; "brute"]%string = true.
Proof. vm_compute. reflexivity. Qed.

(** A5: 0.125 * (21 lc(alpha, 0.5, 3) + 10 alpha dnlc(alpha, 0.5, 3, 1)
    + alpha^2 dnlc(alpha, 0.5, 3, 2)) is within 1e-5 of 0.598100. *)
Example test_coefficient_A5 :
  forallb
    (fun method =>
       close_to (x <- Coefficients.lc lib alpha_3_1 0.5 3 method ;;
                 d1 <- Coefficients.dnlc lib alpha_3_1 0.5 3 1 method ;;
                 d2 <- Coefficients.dnlc lib alpha_3_1 0.5 3 2 method ;;
                 Ok (0.125 * (21 * x + 10 * alpha_3_1 * d1
                              + alpha_3_1 * alpha_3_1 * d2))%float)
                0x1.323a29c779a6bp-1)
    ["hyper"; "brute"]%string = true.
Proof. vm_compute. reflexivity. Qed.

(** Row A1 through [laplace/laplace.py], as [tests/test_laplace.py] asserts
    it with the default method. *)
Example test_laplace_coefficient_A1 :
  close_to (d1 <- Laplace.dnlc lib alpha_3_1 0.5 0 1 "hyper" ;;
            d2 <- Laplace.dnlc lib alpha_3_1 0.5 0 2 "hyper" ;;
            Ok (0.125 * (2 * alpha_3_1 * d1
                         + alpha_3_1 * alpha_3_1 * d2))%float)
           0x1.2303c07ee0b0bp-3 = true.
Proof. vm_compute. reflexivity. Qed.

(* ================================================================= *)
(** * Where the code does less than the specification says *)

(** C2 as stated fails: with n = -1 the result is NaN, not 0.0, at
    alpha = 1, s = 1.5, j = 0 (where the coefficient is infinite) and at
    alpha = 0.5, s = 0.5, j = 66; both inputs are valid. *)
Lemma dnlc_negative_order_not_zero :
  valid_input 1 1.5 "hyper"
  /\ Coefficients.dnlc lib 1 1.5 0 (-1) "hyper" = Ok nan
  /\ valid_input 0.5 0.5 "hyper"
  /\ Coefficients.dnlc lib 0.5 0.5 66 (-1) "hyper" = Ok nan
  /\ (nan =? 0)%float = false.
Proof.
  repeat split; vm_compute; reflexivity.
Qed.

(** C4 as stated fails: with an unknown method and alpha = 1.5 > 1 the
    error is the method error, not a domain error. *)
Lemma method_error_comes_first :
  (1 <? 1.5)%float = true
  /\ Coefficients.lc lib 1.5 0.5 0 "bogus"
     = Raise (ValueError Coefficients.msg_method)
  /\ Coefficients.dnlc lib 1.5 0.5 0 2 "bogus"
     = Raise (ValueError Coefficients.msg_method)
  /\ is_invalid_domain (ValueError Coefficients.msg_method) = false.
Proof.
  repeat split; vm_compute; reflexivity.
Qed.

(** C7 as stated fails at the end of the 64-bit range. At j = 2^63 - 1
    [laplace.py] computes j + 1 on the [int64] that [np.abs] returned: it
    wraps around to -2^63, and [hyp2f1] is given a negative third argument,
    a pole. [coefficients.py] computes j + 1 on Python ints and gives it
    2^63. Both [np.arange] are empty in both files (their length rounds to
    2^63), and 0.5 ** j is 0: [coefficients.py] returns 0.0 and
    [laplace.py] returns NaN, the product of 0 and an infinity. The same
    happens to [dnlc] when the recursion shifts j to 2^63 - 1. *)
Lemma implementations_differ_at_int64_max :
  valid_input 0.5 0.5 "hyper"
  /\ Coefficients.lc far_lib 0.5 0.5 (2 ^ 63 - 1) "hyper" = Ok 0%float
  /\ Laplace.lc far_lib 0.5 0.5 (2 ^ 63 - 1) "hyper" = Ok (PyFloat nan)
  /\ Coefficients.dnlc far_lib 0.5 0.5 (2 ^ 63 - 2) 1 "hyper" = Ok 0%float
  /\ Laplace.dnlc far_lib 0.5 0.5 (2 ^ 63 - 2) 1 "hyper" = Ok nan
  /\ (nan =? 0)%float = false
  /\ Laplace.lc far_lib 0.5 0.5 (2 ^ 63 - 1) "hyper"
     <> (x <- Coefficients.lc far_lib 0.5 0.5 (2 ^ 63 - 1) "hyper" ;;
         Ok (PyFloat x))
  /\ Laplace.dnlc far_lib 0.5 0.5 (2 ^ 63 - 2) 1 "hyper"
     <> Coefficients.dnlc far_lib 0.5 0.5 (2 ^ 63 - 2) 1 "hyper".
Proof.
  assert (Hlc : Coefficients.lc far_lib 0.5 0.5 (2 ^ 63 - 1) "hyper"
                = Ok 0%float) by (vm_compute; reflexivity).
  assert (Hlc' : Laplace.lc far_lib 0.5 0.5 (2 ^ 63 - 1) "hyper"
                 = Ok (PyFloat nan)) by (vm_compute; reflexivity).
  assert (Hd : Coefficients.dnlc far_lib 0.5 0.5 (2 ^ 63 - 2) 1 "hyper"
               = Ok 0%float) by (vm_compute; reflexivity).
  assert (Hd' : Laplace.dnlc far_lib 0.5 0.5 (2 ^ 63 - 2) 1 "hyper"
                = Ok nan) by (vm_compute; reflexivity).
  assert (Hne : (nan =? 0)%float = false) by reflexivity.
  repeat (split; [first [assumption | repeat split; reflexivity] |]).
  split.
  - rewrite Hlc, Hlc'. cbn [bind].
    intros H. apply (f_equal (fun r => match r with
                                       | Ok (PyFloat x) => (x =? 0)%float
                                       | _ => true
                                       end)) in H.
    rewrite Hne in H. discriminate.
  - rewrite Hd, Hd'.
    intros H. apply (f_equal (fun r => match r with
                                       | Ok x => (x =? 0)%float
                                       | Raise _ => true
                                       end)) in H.
    rewrite Hne in H. discriminate.
Qed.

(** C9 as stated fails: the recursion depth is 0, not n, at n = -1 and, on
    an input that fails validation, at n = 3. *)
Lemma recursion_depth_is_not_n :
  Z.of_nat (Coefficients.recursion_depth lib 0.5 0.5 0 (-1) "hyper") <> -1
  /\ Z.of_nat (Coefficients.recursion_depth lib 1.5 0.5 0 3 "hyper") <> 3.
Proof.
  split; vm_compute; discriminate.
Qed.

(* ================================================================= *)
(** * Instances of the theorems *)

Lemma dnlc_recurrence_witness :
  Coefficients.dnlc lib 0.5 0.5 0 1 "hyper"
  = (d1 <- Coefficients.dnlc lib 0.5 (0.5 + 1)%float (0 - 1) (1 - 1) "hyper" ;;
     d2 <- Coefficients.dnlc lib 0.5 (0.5 + 1)%float 0 (1 - 1) "hyper" ;;
     d3 <- Coefficients.dnlc lib 0.5 (0.5 + 1)%float (0 + 1) (1 - 1) "hyper" ;;
     d4 <- Coefficients.dnlc lib 0.5 (0.5 + 1)%float 0 (1 - 2) "hyper" ;;
     Ok (0.5 * (d1 - 2 * 0.5 * d2 + d3
                - float_of_Z (2 * (1 - 1)) * d4))%float).
Proof.
  apply (dnlc_recurrence lib 0.5 0.5 0 1 "hyper").
  - repeat split; reflexivity.
  - reflexivity.
Defined.

Lemma dnlc_base_case_witness :
  Coefficients.dnlc lib 0.5 0.5 1 0 "hyper"
  = Coefficients.lc lib 0.5 0.5 1 "hyper".
Proof.
  apply (dnlc_base_case lib 0.5 0.5 1 0 "hyper").
  - repeat split; reflexivity.
  - discriminate.
  - reflexivity.
Defined.

Lemma dnlc_negative_order_witness :
  Coefficients.dnlc lib 0.5 (-0.5) 0 (-1) "hyper"
  = Raise (ValueError Coefficients.msg_s).
Proof.
  apply (dnlc_negative_order lib 0.5 (-0.5) 0 (-1) "hyper").
  - reflexivity.
  - reflexivity.
Defined.

Lemma subcalls_pass_validation_witness :
  validates (Call 0.5 (0.5 + 1 + 1)%float (0 + 1) (2 - 1 - 1) "hyper").
Proof.
  apply (subcalls_pass_validation lib (Call 0.5 0.5 0 2 "hyper")).
  - reflexivity.
  - eapply reaches_step; [apply sub_same; reflexivity |].
    eapply reaches_step; [apply sub_upper; reflexivity |].
    apply reaches_refl.
Defined.

Lemma lc_even_in_j_witness :
  Coefficients.lc lib 0.5 0.5 (- 2) "brute"
  = Coefficients.lc lib 0.5 0.5 2 "brute".
Proof.
  apply (lc_even_in_j lib 0.5 0.5 2 "brute").
  exact ref_cos_even.
Defined.

Lemma implementations_agree_witness :
  Laplace.dnlc lib 0.5 0.5 (-3) 2 "hyper"
  = Coefficients.dnlc lib 0.5 0.5 (-3) 2 "hyper".
Proof.
  apply (implementations_agree lib 0.5 0.5 (-3) 2 "hyper").
  - repeat split; reflexivity.
  - intros _. reflexivity.
Defined.

(* ================================================================= *)
(** * Further properties of the code *)

(** ** The closed form at small and at zero [j], and at a non-finite [s] *)

Section ClosedFormEdges.

Variable L : NumLib.

Import Coefficients.

(** X1: for a valid input and |j| <= 20 the 64-bit product is exact, and
    the closed form is 2 * (q / |j|!) * alpha^|j| * hyp2f1(s, s + |j|,
    |j| + 1, alpha^2) with q the product of [np.arange(s, s + |j|)]. *)
Theorem lc_closed_form_small_j alpha s j :
  valid_input alpha s "hyper" -> Z.abs j <= 20 ->
  lc L alpha s j "hyper"
  = (arr <- np_arange_float s (s + float_of_Z (Z.abs j))%float ;;
     h <- lift_lib (hyp2f1 L s (s + float_of_Z (Z.abs j))%float
                      (float_of_Z (Z.abs j + 1)) (alpha * alpha)%float) ;;
     Ok (2 * (np_prod_float arr
              / float_of_Z (factorial (Z.to_nat (Z.abs j))))
         * np_power L alpha (float_of_Z (Z.abs j)) * h)%float).
Proof.
  intros Hv Hj. rewrite lc_hyper_small by (assumption || lia).
  rewrite <- (np_prod_int_factorial (Z.to_nat (Z.abs j))) by lia.
  rewrite Z2Nat.id by lia. reflexivity.
Qed.

(** On a finite [s], [np.arange(s, s + 0)] is empty. *)
Lemma np_arange_float_empty (s : float) :
  is_finite s = true -> np_arange_float s (s + 0)%float = Ok [].
Proof.
  intros Hf. unfold np_arange_float.
  assert (Hz : exists sg, Prim2SF ((s + 0 - s) / 1)%float = S754_zero sg).
  { rewrite div_spec, sub_spec, add_spec, Prim2SF_one, Prim2SF_zero.
    unfold is_finite in Hf.
    destruct (Prim2SF s) as [sg | sg | | sg m e]; try discriminate.
    - destruct sg; cbn; eauto.
    - cbn [SF64add SFadd SF64sub SFsub]. rewrite Z.sub_diag.
      cbn. eauto. }
  destruct Hz as [sg Hz]. unfold arange_length, float_ceil. rewrite Hz.
  reflexivity.
Qed.

(** X2: at j = 0 and a finite s both products are empty, and the closed
    form is 2 * alpha^0 * hyp2f1(s, s + 0, 1, alpha^2). *)
Theorem lc_closed_form_j_zero alpha s :
  valid_input alpha s "hyper" -> is_finite s = true ->
  lc L alpha s 0 "hyper"
  = (h <- lift_lib (hyp2f1 L s (s + 0)%float 1%float (alpha * alpha)%float) ;;
     Ok (2 * np_power L alpha 0 * h)%float).
Proof.
  intros Hv Hf. rewrite lc_hyper_small by (assumption || reflexivity).
  change (float_of_Z (Z.abs 0)) with 0%float.
  change (float_of_Z (Z.abs 0 + 1)) with 1%float.
  rewrite np_arange_float_empty by assumption. cbn [bind].
  change (2 * (np_prod_float []
               / float_of_Z (np_prod_int (np_arange_int 1 (Z.abs 0 + 1)))))%float
    with 2%float.
  reflexivity.
Qed.

End ClosedFormEdges.

Section NonFinite.

Variable L : NumLib.

Import Coefficients.

Lemma np_arange_float_not_finite (s y : float) :
  (s <? 0)%float = false -> is_finite s = false ->
  np_arange_float s (s + y)%float = Raise (ValueError msg_length).
Proof.
  intros Hs Hf. unfold np_arange_float.
  assert (Hn : Prim2SF ((s + y - s) / 1)%float = S754_nan).
  { rewrite div_spec, sub_spec, add_spec.
    rewrite ltb_spec, Prim2SF_zero in Hs. unfold is_finite in Hf.
    destruct (Prim2SF s) as [sg | sg | | sg m e]; try discriminate.
    - destruct sg; [discriminate |].
      destruct (Prim2SF y) as [sy | sy | | sy my ey]; try destruct sy;
        reflexivity.
    - reflexivity. }
  unfold arange_length, float_ceil. rewrite Hn.
  unfold is_nan. rewrite eqb_spec, Hn. reflexivity.
Qed.

Lemma add_one_not_finite (s : float) :
  is_finite s = false -> is_finite (s + 1) = false.
Proof.
  unfold is_finite. rewrite add_spec, Prim2SF_one.
  destruct (Prim2SF s) as [sg | sg | | sg m e]; try discriminate;
    reflexivity.
Qed.

Lemma lc_non_finite_s alpha s j :
  valid_input alpha s "hyper" -> is_finite s = false ->
  lc L alpha s j "hyper"
  = (_ <- np_arange 1 (Z.abs j + 1) ;; Raise (ValueError msg_length)).
Proof.
  intros Hv Hf. rewrite lc_hyper_unfold by assumption.
  rewrite np_arange_float_not_finite; [reflexivity | apply Hv | exact Hf].
Qed.

Lemma dnlc_fuel_non_finite_s k : forall alpha s j n,
  valid_input alpha s "hyper" -> is_finite s = false ->
  (Z.to_nat n <= k)%nat ->
  dnlc_fuel L k alpha s j n "hyper"
  = Some (_ <- np_arange 1 (Z.abs (j - Z.max 0 n) + 1) ;;
          Raise (ValueError msg_length)).
Proof.
  assert (Hbase : forall k alpha s j n,
    valid_input alpha s "hyper" -> is_finite s = false -> n <= 0 ->
    dnlc_fuel L k alpha s j n "hyper"
    = Some (_ <- np_arange 1 (Z.abs (j - Z.max 0 n) + 1) ;;
            Raise (ValueError msg_length))).
  { intros k' alpha s j n Hv Hf Hn.
    rewrite dnlc_fuel_base
      by (try apply valid_input_validate; assumption).
    rewrite lc_non_finite_s by assumption.
    replace (j - Z.max 0 n) with j by lia.
    now destruct (np_arange 1 (Z.abs j + 1)). }
  induction k as [| k IH]; intros alpha s j n Hv Hf Hk;
    pose proof (proj1 (valid_input_validate _ _ _) Hv) as Hv';
    destruct (Z.le_gt_cases n 0) as [Hn | Hn]; try (now apply Hbase).
  - lia.
  - rewrite dnlc_fuel_step by assumption.
    rewrite IH;
      [| apply valid_input_validate, validate_shift, Hv'
       | now apply add_one_not_finite | lia].
    replace (j - 1 - Z.max 0 (n - 1)) with (j - Z.max 0 n) by lia.
    now destruct (np_arange 1 (Z.abs (j - Z.max 0 n) + 1)).
Qed.

(** X3: a NaN or an infinite s passes validation, and then the closed form
    never returns: [np.arange(s, s + j)] on line 50 raises its
    [ValueError] on the length, unless [np.arange(1, j + 1)] on line 49
    has refused its own length before. It is so for [lc] and for [dnlc] of
    every order, whose first leaf, [lc] at index j - max(0, n), fails. *)
Theorem closed_form_non_finite_s alpha s j n :
  valid_input alpha s "hyper" -> is_finite s = false ->
  lc L alpha s j "hyper"
  = (_ <- np_arange 1 (Z.abs j + 1) ;; Raise (ValueError msg_length))
  /\ dnlc L alpha s j n "hyper"
     = (_ <- np_arange 1 (Z.abs (j - Z.max 0 n) + 1) ;;
        Raise (ValueError msg_length))
  /\ (exists e, lc L alpha s j "hyper" = Raise e /\ arange_error e)
  /\ (exists e, dnlc L alpha s j n "hyper" = Raise e /\ arange_error e).
Proof.
  intros Hv Hf.
  assert (Hlc := lc_non_finite_s alpha s j Hv Hf).
  assert (Hd : dnlc L alpha s j n "hyper"
               = (_ <- np_arange 1 (Z.abs (j - Z.max 0 n) + 1) ;;
                  Raise (ValueError msg_length))).
  { unfold dnlc. now rewrite dnlc_fuel_non_finite_s. }
  assert (Hraise : forall a b,
    exists e, (_ <- np_arange a b ;; Raise (ValueError msg_length))
              = (Raise e : result float) /\ arange_error e).
  { intros a b. destruct (np_arange a b) as [l | e] eqn:Hab; cbn [bind].
    - eexists. split; [reflexivity | now left].
    - eexists. split; [reflexivity | eapply np_arange_raises, Hab]. }
  repeat split; try assumption.
  - rewrite Hlc. apply Hraise.
  - rewrite Hd. apply Hraise.
Qed.

End NonFinite.

(** ** Exceptions *)

Section Exceptions.

Variable L : NumLib.

Import Coefficients.

(** What [dnlc] raises past its validation, some call of [lc] raised. *)
Lemma dnlc_fuel_error_from_lc (P : exn -> Prop) alpha method :
  (forall s j e, _validate_inputs alpha s method = Ok tt ->
                 lc L alpha s j method = Raise e -> P e) ->
  forall k s j n e,
    _validate_inputs alpha s method = Ok tt ->
    dnlc_fuel L k alpha s j n method = Some (Raise e) -> P e.
Proof.
  intros Hlc.
  assert (Hbase : forall k s j n e,
    _validate_inputs alpha s method = Ok tt -> n <= 0 ->
    dnlc_fuel L k alpha s j n method = Some (Raise e) -> P e).
  { intros k s j n e Hv Hn. rewrite dnlc_fuel_base by assumption.
    destruct (lc L alpha s j method) as [x | e'] eqn:Hx; cbn [bind];
      [discriminate | intros [= <-]; eauto]. }
  induction k as [| k IH]; intros s j n e Hv;
    destruct (Z.le_gt_cases n 0) as [Hn | Hn]; try (now apply Hbase).
  - now rewrite dnlc_fuel_zero.
  - rewrite dnlc_fuel_step by assumption.
    pose proof (validate_shift _ _ _ Hv) as Hv'.
    destruct (dnlc_fuel L k alpha (s + 1)%float (j - 1) (n - 1) method)
      as [[d1 | e1] |] eqn:H1; cbn [fbind];
      [| intros [= <-]; now apply (IH _ _ _ _ Hv' H1) | discriminate].
    destruct (dnlc_fuel L k alpha (s + 1)%float j (n - 1) method)
      as [[d2 | e2] |] eqn:H2; cbn [fbind];
      [| intros [= <-]; now apply (IH _ _ _ _ Hv' H2) | discriminate].
    destruct (dnlc_fuel L k alpha (s + 1)%float (j + 1) (n - 1) method)
      as [[d3 | e3] |] eqn:H3; cbn [fbind];
      [| intros [= <-]; now apply (IH _ _ _ _ Hv' H3) | discriminate].
    destruct (dnlc_fuel L k alpha (s + 1)%float j (n - 2) method)
      as [[d4 | e4] |] eqn:H4; cbn [fbind];
      [discriminate | intros [= <-]; now apply (IH _ _ _ _ Hv' H4)
      | discriminate].
Qed.

Lemma lc_raises alpha s j method e :
  _validate_inputs alpha s method = Ok tt ->
  lc L alpha s j method = Raise e ->
  e = ComputationError \/ method = "hyper"%string /\ arange_error e.
Proof.
  unfold lc. intros ->. cbn [bind].
  destruct (method =? "hyper")%string eqn:Hh.
  - apply String.eqb_eq in Hh.
    destruct (np_arange _ _) as [ints | e'] eqn:Hints; cbn [bind];
      [| intros [= <-]; right; split;
         [exact Hh | eapply np_arange_raises, Hints]].
    destruct (np_arange_float _ _) as [arr | e'] eqn:Harr; cbn [bind].
    + destruct (hyp2f1 L _ _ _ _); cbn [lift_lib bind];
        [discriminate | intros [= <-]; now left].
    + intros [= <-]. right. split; [exact Hh |].
      eapply np_arange_float_raises, Harr.
  - destruct (quad L _ _ _) as [[res err] |]; cbn [lift_lib bind];
      [discriminate | intros [= <-]; now left].
Qed.

(** X4: on a valid input the only exceptions of [lc] and of [dnlc] are the
    one of the SciPy routine and, for the closed form, the three refusals
    of [np.arange] (a NaN length, a length outside the index range, an
    array of 2^60 entries or more); in particular the quadrature raises
    nothing but what [quad] raises, and [dnlc] adds no exception of its
    own: whatever the depth of the stack, a call of [dnlc] that ends with
    an exception ends with one of these. The ints of the call are to be of
    a size that Python converts to a float, here below 2^1000 with the
    shifts of the recursion. *)
Theorem exceptions_on_valid_input alpha s j n method :
  valid_input alpha s method ->
  Z.abs j + Z.max 0 n < 2 ^ 1000 ->
  (forall e, lc L alpha s j method = Raise e ->
     e = ComputationError \/ method = "hyper"%string /\ arange_error e)
  /\ (forall k e, dnlc_fuel L k alpha s j n method = Some (Raise e) ->
        e = ComputationError \/ method = "hyper"%string /\ arange_error e)
  /\ (forall e, dnlc L alpha s j n method = Raise e ->
        e = ComputationError \/ method = "hyper"%string /\ arange_error e).
Proof.
  intros Hv _. apply valid_input_validate in Hv.
  assert (Hk : forall k e,
    dnlc_fuel L k alpha s j n method = Some (Raise e) ->
    e = ComputationError \/ method = "hyper"%string /\ arange_error e).
  { intros k e Hd.
    apply (dnlc_fuel_error_from_lc
             (fun e =>
                e = ComputationError
                \/ method = "hyper"%string /\ arange_error e)
             alpha method) with (2 := Hv) (3 := Hd).
    intros s' j' e'. apply lc_raises. }
  split; [intros e H; now apply (lc_raises alpha s j) |].
  split; [exact Hk |].
  intros e H. apply (Hk (Z.to_nat n)).
  now rewrite (dnlc_fuel_dnlc L (Z.to_nat n) alpha s j n method (le_n _)), H.
Qed.

(** The three messages, one by one. *)
Lemma validate_message_cases alpha s method :
  _validate_inputs alpha s method
  = if negb (recognized method) then Raise (ValueError msg_method)
    else if (1 <? alpha)%float then Raise (ValueError msg_alpha)
    else if (s <? 0)%float then Raise (ValueError msg_s)
    else Ok tt.
Proof. reflexivity. Qed.

Lemma validated_messages alpha s method (r : result float) :
  (forall e, _validate_inputs alpha s method = Raise e -> r = Raise e) ->
  (forall e, _validate_inputs alpha s method = Ok tt -> r = Raise e ->
             is_validation_error e = false) ->
  (r = Raise (ValueError msg_method) <-> recognized method = false)
  /\ (r = Raise (ValueError msg_alpha)
      <-> recognized method = true /\ (1 <? alpha)%float = true)
  /\ (r = Raise (ValueError msg_s)
      <-> recognized method = true /\ (1 <? alpha)%float = false
          /\ (s <? 0)%float = true).
Proof.
  intros Hinv Hval. rewrite validate_message_cases in Hinv, Hval.
  assert (Hno : _validate_inputs alpha s method = Ok tt -> forall e,
            is_validation_error e = true -> r <> Raise e).
  { intros Hv e He Hr. rewrite validate_message_cases in Hv.
    specialize (Hval e Hv Hr). congruence. }
  rewrite validate_message_cases in Hno.
  destruct (recognized method); cbn [negb] in Hinv, Hval, Hno;
    [destruct (1 <? alpha)%float; [| destruct (s <? 0)%float] |];
    try rewrite (Hinv _ eq_refl);
    try (pose proof (Hno eq_refl _ (eq_refl : is_validation_error
                                      (ValueError msg_method) = true));
         pose proof (Hno eq_refl _ (eq_refl : is_validation_error
                                      (ValueError msg_alpha) = true));
         pose proof (Hno eq_refl _ (eq_refl : is_validation_error
                                      (ValueError msg_s) = true)));
    unfold msg_method, msg_alpha, msg_s in *;
    intuition (try discriminate; try congruence).
Qed.

(** X5: which message [lc] and [dnlc] raise: the method message exactly
    when the method is unknown; the alpha message exactly when the method
    is known and alpha > 1, whatever s; the s message exactly when the
    method is known, alpha is not above 1 and s < 0. *)
Theorem validation_messages alpha s j n method :
  ((lc L alpha s j method = Raise (ValueError msg_method)
    <-> recognized method = false)
   /\ (lc L alpha s j method = Raise (ValueError msg_alpha)
       <-> recognized method = true /\ (1 <? alpha)%float = true)
   /\ (lc L alpha s j method = Raise (ValueError msg_s)
       <-> recognized method = true /\ (1 <? alpha)%float = false
           /\ (s <? 0)%float = true))
  /\ ((dnlc L alpha s j n method = Raise (ValueError msg_method)
       <-> recognized method = false)
      /\ (dnlc L alpha s j n method = Raise (ValueError msg_alpha)
          <-> recognized method = true /\ (1 <? alpha)%float = true)
      /\ (dnlc L alpha s j n method = Raise (ValueError msg_s)
          <-> recognized method = true /\ (1 <? alpha)%float = false
              /\ (s <? 0)%float = true)).
Proof.
  split; apply validated_messages.
  - intros e. apply lc_invalid.
  - intros e. apply lc_error_not_validation.
  - intros e. apply dnlc_invalid.
  - intros e. apply dnlc_error_not_validation.
Qed.

End Exceptions.

(** ** NaN, and the first derivative *)

Section NaN.

Lemma SFcompare_refl x : x <> S754_nan -> SFcompare x x = Some Eq.
Proof.
  destruct x as [sg | sg | | sg m e]; intros Hx; try congruence;
    try (destruct sg; reflexivity).
  cbn [SFcompare]. rewrite Z.compare_refl.
  rewrite Pos.compare_cont_refl. destruct sg; reflexivity.
Qed.

Lemma is_nan_spec (x : float) : is_nan x = true <-> Prim2SF x = S754_nan.
Proof.
  unfold is_nan. rewrite eqb_spec. unfold SFeqb. split.
  - intros H. destruct (Prim2SF x) as [sg | sg | | sg m e] eqn:Hx;
      try reflexivity; rewrite SFcompare_refl in H by discriminate;
      discriminate.
  - intros ->. reflexivity.
Qed.

(** [not (y < x)] says that [x <= y] or one of the two is NaN. *)
Lemma not_ltb_iff (x y : float) :
  (y <? x)%float = false
  <-> (x <=? y)%float = true \/ is_nan x = true \/ is_nan y = true.
Proof.
  rewrite !is_nan_spec, ltb_spec, leb_spec. unfold SFltb, SFleb.
  rewrite (SFcompare_antisym (Prim2SF x) (Prim2SF y)).
  destruct (Prim2SF x) as [sx | sx | | sx mx ex] eqn:Hx,
           (Prim2SF y) as [sy | sy | | sy my ey] eqn:Hy;
    try (split; [intros _; now (right; right) | reflexivity]);
    try (split; [intros _; now (right; left) | reflexivity]);
    (destruct (SFcompare _ _) as [[ | | ] |] eqn:Hc; cbn;
     [split; auto | split; auto
     | split; [discriminate | intros [H | [H | H]]; discriminate]
     | cbn in Hc; discriminate]).
Qed.

End NaN.

Section MoreEdges.

Variable L : NumLib.

Import Coefficients.

(** X6: the inputs that [_validate_inputs] accepts are exactly those with
    a known method, an alpha that is at most 1 or NaN, and an s that is at
    least 0 or NaN: a NaN is never refused. *)
Theorem validation_accepts alpha s method :
  _validate_inputs alpha s method = Ok tt <->
  recognized method = true
  /\ ((alpha <=? 1)%float = true \/ is_nan alpha = true)
  /\ ((0 <=? s)%float = true \/ is_nan s = true).
Proof.
  rewrite validate_ok_iff, (not_ltb_iff alpha 1), (not_ltb_iff 0 s).
  change (is_nan 1) with false. change (is_nan 0) with false.
  intuition discriminate.
Qed.

(** X7: the first derivative on a valid input: [dnlc(alpha, s, j, 1)] is
    s * (b1 - 2 alpha b2 + b3 - 0 * (0 * b2)) with b1, b2, b3 the values of
    [lc] at s + 1 and j - 1, j, j + 1; the last term, left by the order -1
    sentinel, is a zero when b2 is finite and NaN otherwise. *)
Theorem dnlc_first_order alpha s j method :
  valid_input alpha s method ->
  dnlc L alpha s j 1 method
  = (b1 <- lc L alpha (s + 1)%float (j - 1) method ;;
     b2 <- lc L alpha (s + 1)%float j method ;;
     b3 <- lc L alpha (s + 1)%float (j + 1) method ;;
     Ok (s * (b1 - 2 * alpha * b2 + b3 - 0 * (0 * b2)))%float)
  /\ forall b2 : float,
       if is_finite b2 then (0 * (0 * b2) =? 0)%float = true
       else (0 * (0 * b2))%float = nan.
Proof.
  intros Hv. apply valid_input_validate in Hv. split.
  - pose proof (validate_shift _ _ _ Hv) as Hv'.
    unfold dnlc at 1. change (Z.to_nat 1) with 1%nat.
    rewrite dnlc_fuel_step by (assumption || lia).
    rewrite !dnlc_fuel_dnlc by (cbn; lia).
    change (1 - 1) with 0. change (1 - 2) with (-1).
    rewrite !dnlc_zero, (dnlc_base L alpha (s + 1)%float j (-1)) by lia.
    rewrite Hv'. cbn [bind].
    change (float_of_Z (2 * 0)) with 0%float.
    change (float_of_Z (Z.max 0 (-1 + 1))) with 0%float.
    rewrite run_fbind. apply bind_ext. intros b1.
    rewrite run_fbind.
    destruct (lc L alpha (s + 1)%float j method) as [b2 | e];
      cbn [bind]; [| reflexivity].
    rewrite run_fbind. apply bind_ext. intros b3.
    reflexivity.
  - intros b2. destruct (is_finite b2) eqn:Hf.
    + rewrite eqb_spec, !mul_spec, Prim2SF_zero.
      unfold is_finite in Hf.
      destruct (Prim2SF b2) as [sg | sg | | sg m e]; try discriminate;
        reflexivity.
    + rewrite (mul_zero_not_finite b2 Hf). reflexivity.
Qed.

End MoreEdges.

(** ** The two [dnlc] without a test of their own *)

Section LeafRecursion.

Variable leaf : float -> Z -> Z -> result float.
Variable a : float.

Lemma leaf_rec_base k s j n :
  n <= 0 -> leaf_rec_fuel leaf k a s j n = Some (leaf s j n).
Proof.
  intros Hn. apply Z.leb_le in Hn. destruct k; cbn [leaf_rec_fuel];
    now rewrite Hn.
Qed.

Lemma leaf_rec_step k s j n :
  0 < n ->
  leaf_rec_fuel leaf (S k) a s j n
  = (d1 <-- leaf_rec_fuel leaf k a (s + 1)%float (j - 1) (n - 1) ;;
     d2 <-- leaf_rec_fuel leaf k a (s + 1)%float j (n - 1) ;;
     d3 <-- leaf_rec_fuel leaf k a (s + 1)%float (j + 1) (n - 1) ;;
     d4 <-- leaf_rec_fuel leaf k a (s + 1)%float j (n - 2) ;;
     Some (Ok (s * (d1 - 2 * a * d2 + d3
                    - float_of_Z (2 * (n - 1)) * d4))%float)).
Proof.
  intros Hn. apply Z.leb_gt in Hn. cbn [leaf_rec_fuel]. now rewrite Hn.
Qed.

Lemma leaf_rec_zero s j n : 0 < n -> leaf_rec_fuel leaf 0 a s j n = None.
Proof.
  intros Hn. apply Z.leb_gt in Hn. cbn [leaf_rec_fuel]. now rewrite Hn.
Qed.

Lemma leaf_rec_mono k : forall k' s j n,
  (k <= k')%nat ->
  refines (leaf_rec_fuel leaf k a s j n) (leaf_rec_fuel leaf k' a s j n).
Proof.
  induction k as [| k IH]; intros k' s j n Hk;
    destruct (Z.le_gt_cases n 0) as [Hn | Hn];
    try (rewrite !leaf_rec_base by assumption; now intros r).
  - rewrite leaf_rec_zero by assumption. intros r. discriminate.
  - destruct k' as [| k']; [lia |].
    rewrite !leaf_rec_step by assumption.
    repeat (apply refines_fbind; [apply IH; lia | intros ?]).
    now intros r.
Qed.

Lemma leaf_rec_enough k : forall s j n,
  (Z.to_nat n <= k)%nat -> exists r, leaf_rec_fuel leaf k a s j n = Some r.
Proof.
  induction k as [| k IH]; intros s j n Hk;
    destruct (Z.le_gt_cases n 0) as [Hn | Hn];
    try (rewrite leaf_rec_base by assumption; eauto; fail).
  - lia.
  - rewrite leaf_rec_step by assumption.
    repeat (apply fbind_some; [apply IH; lia | intros ?]).
    eauto.
Qed.

Lemma leaf_rec_short k : forall s j n,
  (k < Z.to_nat n)%nat -> leaf_rec_fuel leaf k a s j n = None.
Proof.
  induction k as [| k IH]; intros s j n Hk.
  - apply leaf_rec_zero. lia.
  - rewrite leaf_rec_step by lia. rewrite IH by lia. reflexivity.
Qed.

Lemma leaf_rec_run k s j n :
  (Z.to_nat n <= k)%nat ->
  leaf_rec_fuel leaf k a s j n
  = Some (run (leaf_rec_fuel leaf (Z.to_nat n) a s j n)).
Proof.
  intros Hk.
  destruct (leaf_rec_enough (Z.to_nat n) s j n (le_n _)) as [r Hr].
  rewrite Hr. cbn [run]. now apply (leaf_rec_mono _ _ _ _ _ Hk).
Qed.

(** An exception of the recursion is an exception of a leaf. *)
Lemma leaf_rec_error (P : exn -> Prop) :
  (forall s j n e, leaf s j n = Raise e -> P e) ->
  forall k s j n e, leaf_rec_fuel leaf k a s j n = Some (Raise e) -> P e.
Proof.
  intros Hleaf.
  induction k as [| k IH]; intros s j n e;
    destruct (Z.le_gt_cases n 0) as [Hn | Hn];
    try (rewrite leaf_rec_base by assumption; intros [= H]; eauto; fail).
  - now rewrite leaf_rec_zero.
  - rewrite leaf_rec_step by assumption.
    destruct (leaf_rec_fuel leaf k a (s + 1)%float (j - 1) (n - 1))
      as [[d1 | e1] |] eqn:H1; cbn [fbind];
      [| intros [= <-]; now apply (IH _ _ _ _ H1) | discriminate].
    destruct (leaf_rec_fuel leaf k a (s + 1)%float j (n - 1))
      as [[d2 | e2] |] eqn:H2; cbn [fbind];
      [| intros [= <-]; now apply (IH _ _ _ _ H2) | discriminate].
    destruct (leaf_rec_fuel leaf k a (s + 1)%float (j + 1) (n - 1))
      as [[d3 | e3] |] eqn:H3; cbn [fbind];
      [| intros [= <-]; now apply (IH _ _ _ _ H3) | discriminate].
    destruct (leaf_rec_fuel leaf k a (s + 1)%float j (n - 2))
      as [[d4 | e4] |] eqn:H4; cbn [fbind];
      [discriminate | intros [= <-]; now apply (IH _ _ _ _ H4)
      | discriminate].
Qed.

(** When every leaf raises [e], so does the recursion. *)
Lemma leaf_rec_raise e :
  (forall s j n, leaf s j n = Raise e) ->
  forall k s j n, (Z.to_nat n <= k)%nat ->
    leaf_rec_fuel leaf k a s j n = Some (Raise e).
Proof.
  intros Hleaf.
  induction k as [| k IH]; intros s j n Hk;
    destruct (Z.le_gt_cases n 0) as [Hn | Hn];
    try (rewrite leaf_rec_base by assumption; now rewrite Hleaf).
  - lia.
  - rewrite leaf_rec_step by assumption. rewrite IH by lia. reflexivity.
Qed.

End LeafRecursion.

(** Two leaves that agree wherever an invariant of [s] holds give the same
    recursion. *)
Lemma leaf_rec_ext (I : float -> Prop) leaf leaf' a :
  (forall s, I s -> I (s + 1)%float) ->
  (forall s j n, I s -> leaf s j n = leaf' s j n) ->
  forall k s j n, I s ->
    leaf_rec_fuel leaf k a s j n = leaf_rec_fuel leaf' k a s j n.
Proof.
  intros Hstep Hleaf.
  induction k as [| k IH]; intros s j n Hs;
    destruct (Z.le_gt_cases n 0) as [Hn | Hn];
    try (rewrite !leaf_rec_base by assumption; f_equal; auto; fail).
  - now rewrite !leaf_rec_zero.
  - rewrite !leaf_rec_step by assumption.
    rewrite !IH by auto. reflexivity.
Qed.

Section Unvalidated.

Variable L : NumLib.

Lemma laplace_dnlc_fuel_leaf k : forall a s j n method,
  Laplace.dnlc_fuel L k a s j n method
  = leaf_rec_fuel (laplace_leaf L a method) k a s j n.
Proof.
  induction k as [| k IH]; intros a s j n method;
    cbn [Laplace.dnlc_fuel leaf_rec_fuel];
    destruct (n <=? 0); try reflexivity.
  now rewrite !IH.
Qed.

Lemma legacy_dnlc_fuel_leaf k : forall a s j n method,
  Legacy.dnlc_fuel L k a s j n method
  = leaf_rec_fuel (legacy_leaf L a method) k a s j n.
Proof.
  induction k as [| k IH]; intros a s j n method;
    cbn [Legacy.dnlc_fuel leaf_rec_fuel];
    destruct (n <=? 0); try reflexivity.
  now rewrite !IH.
Qed.

Lemma laplace_dnlc_fuel_run k a s j n method :
  (Z.to_nat n <= k)%nat ->
  Laplace.dnlc_fuel L k a s j n method
  = Some (Laplace.dnlc L a s j n method).
Proof.
  intros Hk. unfold Laplace.dnlc. rewrite !laplace_dnlc_fuel_leaf.
  now apply leaf_rec_run.
Qed.

(** X8: [dnlc] of [laplace/laplace.py] is total, and it recurses to depth
    max(0, n) on every input, valid or not, since only its leaves test the
    arguments: n frames are enough and fewer are not. *)
Theorem laplace_dnlc_depth a s j n method :
  (forall k, (Z.to_nat n <= k)%nat ->
     Laplace.dnlc_fuel L k a s j n method
     = Some (Laplace.dnlc L a s j n method))
  /\ (forall k, (k < Z.to_nat n)%nat ->
        Laplace.dnlc_fuel L k a s j n method = None).
Proof.
  split; intros k Hk.
  - now apply laplace_dnlc_fuel_run.
  - rewrite laplace_dnlc_fuel_leaf. now apply leaf_rec_short.
Qed.

Lemma laplace_lc_raises a s j method e :
  Laplace.lc L a s j method = Raise e -> forall msg, e <> TypeError msg.
Proof.
  unfold Laplace.lc.
  destruct (negb _); [intros [= <-]; discriminate |].
  destruct (1 <? a)%float; [intros [= <-]; discriminate |].
  destruct (s <? 0)%float; [intros [= <-]; discriminate |].
  destruct (method =? "hyper")%string.
  - destruct (np_arange _ _) as [ints | e'] eqn:Hints; cbn [bind];
      [| intros [= <-]; eapply arange_error_not_type, np_arange_raises, Hints].
    destruct (np_arange_float _ _) as [arr | e'] eqn:Harr; cbn [bind].
    + destruct (hyp2f1 L _ _ _ _); cbn [lift_lib bind];
        [discriminate | intros [= <-]; discriminate].
    + intros [= <-].
      eapply arange_error_not_type, np_arange_float_raises, Harr.
  - destruct (method =? "brute")%string; [| discriminate].
    destruct (quad L _ _ _) as [[l err] |]; cbn [lift_lib bind];
      [discriminate | intros [= <-]; discriminate].
Qed.

Lemma laplace_lc_not_none a s j method :
  Laplace.lc L a s j method <> Ok PyNone.
Proof.
  unfold Laplace.lc.
  destruct (existsb _ _) eqn:Hm; cbn [negb]; [| discriminate].
  destruct (1 <? a)%float; [discriminate |].
  destruct (s <? 0)%float; [discriminate |].
  destruct (method =? "hyper")%string eqn:Hh.
  - destruct (np_arange _ _); cbn [bind]; [| discriminate].
    destruct (np_arange_float _ _); cbn [bind]; [| discriminate].
    destruct (hyp2f1 L _ _ _ _); discriminate.
  - rewrite (recognized_cases _ Hm Hh).
    destruct (quad L _ _ _) as [[l err] |]; discriminate.
Qed.

(** X9: [lc] of [laplace/laplace.py] never falls off its end: it returns a
    float or raises, never [None]; so its [dnlc] never fails with the
    [TypeError] of multiplying [None]. *)
Theorem laplace_never_none a s j n method :
  Laplace.lc L a s j method <> Ok PyNone
  /\ forall msg, Laplace.dnlc L a s j n method <> Raise (TypeError msg).
Proof.
  split; [apply laplace_lc_not_none |].
  intros msg H.
  pose proof (laplace_dnlc_fuel_run (Z.to_nat n) a s j n method (le_n _))
    as Hd.
  rewrite H, laplace_dnlc_fuel_leaf in Hd.
  refine (leaf_rec_error (laplace_leaf L a method) a
            (fun e => forall msg, e <> TypeError msg) _ _ _ _ _ _ Hd
            msg eq_refl).
  intros s' j' n' e'. unfold laplace_leaf.
  destruct (Laplace.lc L a s' j' method) as [[x |] | e''] eqn:Hlc;
    cbn [bind Laplace.int_times].
  - discriminate.
  - now destruct (laplace_lc_not_none a s' j' method).
  - intros [= <-]. eapply laplace_lc_raises, Hlc.
Qed.

End Unvalidated.

Section UnvalidatedAgainstValidated.

Variable L : NumLib.

(** X10: for n > 0 [dnlc] of [laplace/laplace.py] does not test its own
    s: as soon as (alpha, s + 1) is valid it returns the combination of the
    four validated sub-derivatives, also for a negative s, where [dnlc] of
    [coefficients.py] raises the s message. *)
Theorem laplace_dnlc_skips_own_test a s j n method :
  0 < n -> valid_input a (s + 1)%float method ->
  ((method =? "hyper")%string = true -> Z.abs j + n < 2 ^ 63 - 1) ->
  Laplace.dnlc L a s j n method
  = (d1 <- Coefficients.dnlc L a (s + 1)%float (j - 1) (n - 1) method ;;
     d2 <- Coefficients.dnlc L a (s + 1)%float j (n - 1) method ;;
     d3 <- Coefficients.dnlc L a (s + 1)%float (j + 1) (n - 1) method ;;
     d4 <- Coefficients.dnlc L a (s + 1)%float j (n - 2) method ;;
     Ok (s * (d1 - 2 * a * d2 + d3
              - float_of_Z (2 * (n - 1)) * d4))%float)
  /\ ((s <? 0)%float = true ->
      Coefficients.dnlc L a s j n method
      = Raise (ValueError Coefficients.msg_s)).
Proof.
  intros Hn Hv Hj. split.
  - unfold Laplace.dnlc.
    replace (Z.to_nat n) with (S (Z.to_nat (n - 1))) by lia.
    pose proof Hn as Hn'. apply Z.leb_gt in Hn'.
    cbn [Laplace.dnlc_fuel]. rewrite Hn'.
    rewrite !dnlc_fuel_agree
      by (assumption || (intros Hh; specialize (Hj Hh); lia)).
    rewrite !dnlc_fuel_dnlc by lia.
    rewrite run_fbind. apply bind_ext. intros d1.
    rewrite run_fbind. apply bind_ext. intros d2.
    rewrite run_fbind. apply bind_ext. intros d3.
    rewrite run_fbind. reflexivity.
  - intros Hs. apply dnlc_invalid.
    destruct Hv as (Hm & Ha & _).
    rewrite validate_message_cases, Hm, Ha, Hs. reflexivity.
Qed.

(** X11: with a method that is neither of the two, [lc] of [src/laplace.py]
    returns [None] without an error, and its [dnlc] of every order fails
    with the [TypeError] of multiplying [None] by an int. *)
Theorem legacy_unknown_method a s j n method :
  recognized method = false ->
  Legacy.lc L a s j method = Ok PyNone
  /\ Legacy.dnlc L a s j n method
     = Raise (TypeError
                "unsupported operand type(s) for *: 'int' and 'NoneType'").
Proof.
  intros Hm.
  assert (Hlc : forall s j, Legacy.lc L a s j method = Ok PyNone).
  { intros s' j'. unfold recognized in Hm. cbn [existsb] in Hm.
    apply orb_false_elim in Hm. destruct Hm as [Hh Hb].
    apply orb_false_elim in Hb. destruct Hb as [Hb _].
    unfold Legacy.lc. now rewrite Hh, Hb. }
  split; [apply Hlc |].
  unfold Legacy.dnlc. rewrite legacy_dnlc_fuel_leaf.
  rewrite (leaf_rec_raise (legacy_leaf L a method) a
             (TypeError
                "unsupported operand type(s) for *: 'int' and 'NoneType'"));
    [reflexivity | | lia].
  intros s' j' n'. unfold legacy_leaf. now rewrite Hlc.
Qed.

Lemma legacy_lc_laplace a s j method :
  valid_input a s method -> Legacy.lc L a s j method = Laplace.lc L a s j method.
Proof.
  intros (Hm & Ha & Hs). unfold Laplace.lc, Legacy.lc.
  fold (recognized method). rewrite Hm, Ha, Hs. reflexivity.
Qed.

(** X12: on every valid input [lc] and [dnlc] of [src/laplace.py] return
    what [lc] and [dnlc] of [laplace/laplace.py] return. *)
Theorem legacy_agrees_with_laplace a s j n method :
  valid_input a s method ->
  Legacy.lc L a s j method = Laplace.lc L a s j method
  /\ Legacy.dnlc L a s j n method = Laplace.dnlc L a s j n method.
Proof.
  intros Hv. split; [now apply legacy_lc_laplace |].
  unfold Legacy.dnlc, Laplace.dnlc.
  rewrite legacy_dnlc_fuel_leaf, laplace_dnlc_fuel_leaf.
  f_equal.
  apply (leaf_rec_ext (fun s => valid_input a s method)); [| | exact Hv].
  - intros s' Hs'. apply valid_input_validate, validate_shift.
    now apply valid_input_validate.
  - intros s' j' n' Hs'. unfold legacy_leaf, laplace_leaf.
    now rewrite legacy_lc_laplace.
Qed.

Lemma legacy_lc_raises a s j method e :
  Legacy.lc L a s j method = Raise e ->
  e = ComputationError \/ method = "hyper"%string /\ arange_error e.
Proof.
  unfold Legacy.lc.
  destruct (method =? "hyper")%string eqn:Hh.
  - apply String.eqb_eq in Hh.
    destruct (np_arange _ _) as [ints | e'] eqn:Hints; cbn [bind];
      [| intros [= <-]; right; split;
         [exact Hh | eapply np_arange_raises, Hints]].
    destruct (np_arange_float _ _) as [arr | e'] eqn:Harr; cbn [bind].
    + destruct (hyp2f1 L _ _ _ _); cbn [lift_lib bind];
        [discriminate | intros [= <-]; now left].
    + intros [= <-]. right. split; [exact Hh |].
      eapply np_arange_float_raises, Harr.
  - destruct (method =? "brute")%string; [| discriminate].
    destruct (quad L _ _ _) as [[l err] |]; cbn [lift_lib bind];
      [discriminate | intros [= <-]; now left].
Qed.

(** X13: [src/laplace.py] refuses nothing: whatever alpha, s and the
    method, and for an index within the 64-bit integers, an exception of
    its [lc] is the one of the SciPy routine or, for the closed form, a
    refusal of [np.arange]; an exception of its [dnlc], whatever the depth
    of the stack, is one of these or the [TypeError] of an unknown method.
    No [ValueError] about alpha, s or the method is ever raised. *)
Theorem legacy_exceptions a s j n method :
  Z.abs j + Z.max 0 n < 2 ^ 63 ->
  (forall e, Legacy.lc L a s j method = Raise e ->
     (e = ComputationError \/ method = "hyper"%string /\ arange_error e)
     /\ is_validation_error e = false)
  /\ (forall k e, Legacy.dnlc_fuel L k a s j n method = Some (Raise e) ->
        ((e = ComputationError \/ method = "hyper"%string /\ arange_error e)
         \/ recognized method = false
            /\ e = TypeError
                     "unsupported operand type(s) for *: 'int' and 'NoneType'")
        /\ is_validation_error e = false)
  /\ (forall e, Legacy.dnlc L a s j n method = Raise e ->
        ((e = ComputationError \/ method = "hyper"%string /\ arange_error e)
         \/ recognized method = false
            /\ e = TypeError
                     "unsupported operand type(s) for *: 'int' and 'NoneType'")
        /\ is_validation_error e = false).
Proof.
  intros _.
  assert (Hnv : forall e,
    e = ComputationError \/ method = "hyper"%string /\ arange_error e ->
    is_validation_error e = false).
  { intros e [-> | [_ He]];
      [reflexivity | now apply arange_error_not_validation]. }
  split.
  { intros e He. apply legacy_lc_raises in He. auto. }
  cut (forall k e, Legacy.dnlc_fuel L k a s j n method = Some (Raise e) ->
        ((e = ComputationError \/ method = "hyper"%string /\ arange_error e)
         \/ recognized method = false
            /\ e = TypeError
                     "unsupported operand type(s) for *: 'int' and 'NoneType'")
        /\ is_validation_error e = false).
  { intros Hk. split; [exact Hk |].
    intros e He. apply (Hk (Z.to_nat n)).
    rewrite legacy_dnlc_fuel_leaf.
    rewrite (leaf_rec_run (legacy_leaf L a method) a _ s j n (le_n _)).
    unfold Legacy.dnlc in He. rewrite legacy_dnlc_fuel_leaf in He.
    now rewrite He. }
  intros k e Hd. rewrite legacy_dnlc_fuel_leaf in Hd.
  apply (leaf_rec_error (legacy_leaf L a method) a
           (fun e =>
              ((e = ComputationError
                \/ method = "hyper"%string /\ arange_error e)
               \/ recognized method = false
                  /\ e = TypeError
                       "unsupported operand type(s) for *: 'int' and 'NoneType'")
              /\ is_validation_error e = false))
    with (2 := Hd).
  intros s' j' n' e'. unfold legacy_leaf.
  destruct (Legacy.lc L a s' j' method) as [[x |] | e''] eqn:Hlc;
    cbn [bind Laplace.int_times].
  - discriminate.
  - intros [= <-]. split; [| reflexivity]. right. split; [| reflexivity].
    unfold Legacy.lc in Hlc. unfold recognized. cbn [existsb].
    destruct (method =? "hyper")%string.
    + destruct (np_arange _ _); cbn [bind] in Hlc; [| discriminate].
      destruct (np_arange_float _ _); cbn [bind] in Hlc; [| discriminate].
      destruct (hyp2f1 L _ _ _ _); discriminate.
    + destruct (method =? "brute")%string; [| reflexivity].
      destruct (quad L _ _ _) as [[l err] |]; discriminate.
  - intros [= <-]. apply legacy_lc_raises in Hlc. auto.
Qed.

End UnvalidatedAgainstValidated.

(** ** The number of evaluations of [lc] *)

Section Cost.

Variable L : NumLib.

Import Coefficients.

Lemma lc_calls_base n : n <= 0 -> lc_calls n = 1.
Proof. intros Hn. unfold lc_calls. now replace (Z.to_nat n) with 0%nat by lia. Qed.

Lemma lc_calls_step n :
  0 < n -> lc_calls n = 3 * lc_calls (n - 1) + lc_calls (n - 2).
Proof.
  intros Hn. unfold lc_calls.
  replace (Z.to_nat n) with (S (Z.to_nat (n - 1))) by lia.
  cbn [lc_calls_nat].
  destruct (Z.to_nat (n - 1)) as [| k''] eqn:Hk.
  - now replace (Z.to_nat (n - 2)) with 0%nat by lia.
  - now replace (Z.to_nat (n - 2)) with k'' by lia.
Qed.

Lemma lc_calls_nat_pos k : 0 < lc_calls_nat k /\ 0 < lc_calls_nat (S k).
Proof.
  induction k as [| k [IH1 IH2]]; [cbn; lia |].
  split; [exact IH2 |].
  change (lc_calls_nat (S (S k)))
    with (3 * lc_calls_nat (S k) + lc_calls_nat k).
  lia.
Qed.

Lemma lc_calls_nat_lower k : 3 ^ Z.of_nat k <= lc_calls_nat k.
Proof.
  induction k as [| k IH]; [cbn; lia |].
  rewrite Nat2Z.inj_succ, Z.pow_succ_r by lia.
  cbn [lc_calls_nat].
  destruct k as [| k']; [cbn in *; lia |].
  pose proof (lc_calls_nat_pos k'). lia.
Qed.

(** Without its counter, [dnlc_count] is [dnlc_fuel]. *)
Lemma dnlc_count_value k : forall alpha s j n method,
  dnlc_fuel L k alpha s j n method
  = match dnlc_count L k alpha s j n method with
    | Some r => Some (p <- r ;; Ok (fst p))
    | None => None
    end.
Proof.
  induction k as [| k IH]; intros alpha s j n method;
    cbn [dnlc_fuel dnlc_count];
    destruct (_validate_inputs alpha s method) as [[] | e]; try reflexivity;
    destruct (n <=? 0); try reflexivity;
    try (destruct (lc L alpha s j method); reflexivity).
  rewrite !IH.
  destruct (dnlc_count L k alpha (s + 1)%float (j - 1) (n - 1) method)
    as [[[v1 c1] | e1] |]; cbn [fbind bind fst]; try reflexivity.
  destruct (dnlc_count L k alpha (s + 1)%float j (n - 1) method)
    as [[[v2 c2] | e2] |]; cbn [fbind bind fst]; try reflexivity.
  destruct (dnlc_count L k alpha (s + 1)%float (j + 1) (n - 1) method)
    as [[[v3 c3] | e3] |]; cbn [fbind bind fst]; try reflexivity.
  destruct (dnlc_count L k alpha (s + 1)%float j (n - 2) method)
    as [[[v4 c4] | e4] |]; cbn [fbind bind fst]; reflexivity.
Qed.

(** A run that returns has made [lc_calls n] calls of [lc]. *)
Lemma dnlc_count_calls k : forall alpha s j n method v c,
  dnlc_count L k alpha s j n method = Some (Ok (v, c)) -> c = lc_calls n.
Proof.
  induction k as [| k IH]; intros alpha s j n method v c;
    cbn [dnlc_count];
    destruct (_validate_inputs alpha s method) as [[] | e]; try discriminate;
    destruct (n <=? 0) eqn:Hn; try discriminate;
    try (apply Z.leb_le in Hn; rewrite lc_calls_base by assumption;
         destruct (lc L alpha s j method); cbn [bind];
         [intros [= _ <-]; reflexivity | discriminate]).
  apply Z.leb_gt in Hn. rewrite lc_calls_step by assumption.
  destruct (dnlc_count L k alpha (s + 1)%float (j - 1) (n - 1) method)
    as [[[v1 c1] | e1] |] eqn:H1; cbn [fbind]; try discriminate.
  destruct (dnlc_count L k alpha (s + 1)%float j (n - 1) method)
    as [[[v2 c2] | e2] |] eqn:H2; cbn [fbind]; try discriminate.
  destruct (dnlc_count L k alpha (s + 1)%float (j + 1) (n - 1) method)
    as [[[v3 c3] | e3] |] eqn:H3; cbn [fbind]; try discriminate.
  destruct (dnlc_count L k alpha (s + 1)%float j (n - 2) method)
    as [[[v4 c4] | e4] |] eqn:H4; cbn [fbind]; try discriminate.
  intros [= _ <-]. cbn [snd].
  rewrite (IH _ _ _ _ _ _ _ H1), (IH _ _ _ _ _ _ _ H2),
    (IH _ _ _ _ _ _ _ H3), (IH _ _ _ _ _ _ _ H4).
  lia.
Qed.

(** X14: a call of [dnlc] that returns a value has evaluated [lc] exactly
    [lc_calls n] times, where [lc_calls] is 1 up to order 0 and
    3 * lc_calls (n - 1) + lc_calls (n - 2) above: nothing is shared between
    the branches, and the count is at least 3 ^ n. *)
Theorem dnlc_evaluates_lc alpha s j n method v :
  dnlc L alpha s j n method = Ok v ->
  dnlc_count L (Z.to_nat n) alpha s j n method = Some (Ok (v, lc_calls n))
  /\ (0 < n -> lc_calls n = 3 * lc_calls (n - 1) + lc_calls (n - 2))
  /\ 3 ^ Z.max 0 n <= lc_calls n.
Proof.
  intros Hd. split; [| split].
  - pose proof (dnlc_fuel_dnlc L (Z.to_nat n) alpha s j n method (le_n _))
      as Hf.
    rewrite Hd, dnlc_count_value in Hf.
    destruct (dnlc_count L (Z.to_nat n) alpha s j n method)
      as [[[v' c] | e] |] eqn:Hc; cbn [bind fst] in Hf; try discriminate.
    injection Hf as ->.
    now rewrite (dnlc_count_calls _ _ _ _ _ _ _ _ Hc).
  - apply lc_calls_step.
  - unfold lc_calls.
    replace (Z.max 0 n) with (Z.of_nat (Z.to_nat n)) by lia.
    apply lc_calls_nat_lower.
Qed.

End Cost.

(** ** Instances *)

Lemma closed_form_non_finite_s_witness :
  Coefficients.lc Reference.lib 0.5 nan 3 "hyper"
  = Raise (ValueError "arange: cannot compute length")
  /\ Coefficients.dnlc Reference.lib 0.5 infinity 3 2 "hyper"
     = Raise (ValueError "arange: cannot compute length")
  /\ Coefficients.lc Reference.lib 0.5 nan (2 ^ 64) "hyper"
     = Raise (ValueError "Maximum allowed size exceeded").
Proof.
  pose proof (closed_form_non_finite_s Reference.lib 0.5 nan 3 0
                (conj eq_refl (conj eq_refl eq_refl)) eq_refl) as (H1 & _).
  pose proof (closed_form_non_finite_s Reference.lib 0.5 infinity 3 2
                (conj eq_refl (conj eq_refl eq_refl)) eq_refl) as (_ & H2 & _).
  pose proof (closed_form_non_finite_s Reference.lib 0.5 nan (2 ^ 64) 0
                (conj eq_refl (conj eq_refl eq_refl)) eq_refl) as (H3 & _).
  split; [exact H1 | split; [exact H2 | exact H3]].
Defined.

Lemma dnlc_first_order_witness :
  Coefficients.dnlc Reference.lib 0.5 0.5 0 1 "brute"
  = (b1 <- Coefficients.lc Reference.lib 0.5 (0.5 + 1)%float (0 - 1) "brute" ;;
     b2 <- Coefficients.lc Reference.lib 0.5 (0.5 + 1)%float 0 "brute" ;;
     b3 <- Coefficients.lc Reference.lib 0.5 (0.5 + 1)%float (0 + 1) "brute" ;;
     Ok (0.5 * (b1 - 2 * 0.5 * b2 + b3 - 0 * (0 * b2)))%float).
Proof.
  apply (dnlc_first_order Reference.lib 0.5 0.5 0 "brute").
  repeat split; reflexivity.
Defined.

Lemma dnlc_evaluates_lc_witness :
  exists v,
    dnlc_count Reference.lib 2 0.5 0.5 1 2 "hyper" = Some (Ok (v, 13)).
Proof.
  eexists.
  apply (dnlc_evaluates_lc Reference.lib 0.5 0.5 1 2 "hyper").
  vm_compute. reflexivity.
Defined.

Lemma lc_closed_form_small_j_witness :
  Coefficients.lc Reference.lib 0.5 0.5 (-3) "hyper"
  = (arr <- np_arange_float 0.5 (0.5 + float_of_Z (Z.abs (-3)))%float ;;
     h <- lift_lib (hyp2f1 Reference.lib 0.5
                      (0.5 + float_of_Z (Z.abs (-3)))%float
                      (float_of_Z (Z.abs (-3) + 1)) (0.5 * 0.5)%float) ;;
     Ok (2 * (np_prod_float arr
              / float_of_Z (factorial (Z.to_nat (Z.abs (-3)))))
         * np_power Reference.lib 0.5 (float_of_Z (Z.abs (-3))) * h)%float).
Proof.
  apply (lc_closed_form_small_j Reference.lib 0.5 0.5 (-3)).
  - repeat split; reflexivity.
  - discriminate.
Defined.

Lemma lc_closed_form_j_zero_witness :
  Coefficients.lc Reference.lib 0.5 1.5 0 "hyper"
  = (h <- lift_lib (hyp2f1 Reference.lib 1.5 (1.5 + 0)%float 1%float
                      (0.5 * 0.5)%float) ;;
     Ok (2 * np_power Reference.lib 0.5 0 * h)%float).
Proof.
  apply (lc_closed_form_j_zero Reference.lib 0.5 1.5).
  - repeat split; reflexivity.
  - reflexivity.
Defined.

Lemma exceptions_on_valid_input_witness :
  (forall e,
     Coefficients.lc Reference.lib 0.5 0.5 (2 ^ 62) "hyper" = Raise e ->
     e = ComputationError \/ "hyper"%string = "hyper"%string /\ arange_error e)
  /\ (forall k e,
        Coefficients.dnlc_fuel Reference.lib k 0.5 0.5 (2 ^ 62) 2 "hyper"
        = Some (Raise e) ->
        e = ComputationError
        \/ "hyper"%string = "hyper"%string /\ arange_error e)
  /\ (forall e,
        Coefficients.dnlc Reference.lib 0.5 0.5 (2 ^ 62) 2 "hyper" = Raise e ->
        e = ComputationError
        \/ "hyper"%string = "hyper"%string /\ arange_error e).
Proof.
  apply (exceptions_on_valid_input Reference.lib 0.5 0.5 (2 ^ 62) 2 "hyper").
  - repeat split; reflexivity.
  - reflexivity.
Defined.

Lemma laplace_dnlc_skips_own_test_witness :
  Laplace.dnlc Reference.lib 0.5 (-0.5) 0 1 "hyper"
  = (d1 <- Coefficients.dnlc Reference.lib 0.5 (-0.5 + 1)%float (0 - 1)
             (1 - 1) "hyper" ;;
     d2 <- Coefficients.dnlc Reference.lib 0.5 (-0.5 + 1)%float 0 (1 - 1)
             "hyper" ;;
     d3 <- Coefficients.dnlc Reference.lib 0.5 (-0.5 + 1)%float (0 + 1)
             (1 - 1) "hyper" ;;
     d4 <- Coefficients.dnlc Reference.lib 0.5 (-0.5 + 1)%float 0 (1 - 2)
             "hyper" ;;
     Ok (-0.5 * (d1 - 2 * 0.5 * d2 + d3
                 - float_of_Z (2 * (1 - 1)) * d4))%float)
  /\ Coefficients.dnlc Reference.lib 0.5 (-0.5) 0 1 "hyper"
     = Raise (ValueError Coefficients.msg_s).
Proof.
  destruct (laplace_dnlc_skips_own_test Reference.lib 0.5 (-0.5) 0 1 "hyper")
    as [H1 H2].
  - reflexivity.
  - repeat split; reflexivity.
  - intros _. reflexivity.
  - split; [exact H1 | apply H2; reflexivity].
Defined.

Lemma legacy_unknown_method_witness :
  Legacy.dnlc Reference.lib 0.5 0.5 0 2 "bogus"
  = Raise (TypeError
             "unsupported operand type(s) for *: 'int' and 'NoneType'").
Proof.
  apply (legacy_unknown_method Reference.lib 0.5 0.5 0 2 "bogus").
  reflexivity.
Defined.

Lemma legacy_agrees_with_laplace_witness :
  Legacy.dnlc Reference.lib 0.5 0.5 1 2 "brute"
  = Laplace.dnlc Reference.lib 0.5 0.5 1 2 "brute".
Proof.
  apply (legacy_agrees_with_laplace Reference.lib 0.5 0.5 1 2 "brute").
  repeat split; reflexivity.
Defined.

Lemma legacy_exceptions_witness :
  (forall e,
     Legacy.lc Reference.lib 1.5 (-0.5) 1 "hyper" = Raise e ->
     (e = ComputationError \/ "hyper"%string = "hyper"%string /\ arange_error e)
     /\ is_validation_error e = false)
  /\ (forall k e,
        Legacy.dnlc_fuel Reference.lib k 1.5 (-0.5) 1 2 "hyper"
        = Some (Raise e) ->
        ((e = ComputationError
          \/ "hyper"%string = "hyper"%string /\ arange_error e)
         \/ recognized "hyper" = false
            /\ e = TypeError
                     "unsupported operand type(s) for *: 'int' and 'NoneType'")
        /\ is_validation_error e = false)
  /\ (forall e,
        Legacy.dnlc Reference.lib 1.5 (-0.5) 1 2 "hyper" = Raise e ->
        ((e = ComputationError
          \/ "hyper"%string = "hyper"%string /\ arange_error e)
         \/ recognized "hyper" = false
            /\ e = TypeError
                     "unsupported operand type(s) for *: 'int' and 'NoneType'")
        /\ is_validation_error e = false).
Proof.
  apply (legacy_exceptions Reference.lib 1.5 (-0.5) 1 2 "hyper").
  reflexivity.
Defined.
